(** * strava_cache.py: polyline decoding, geometry derivation and route index

    A shallow embedding of [scripts/strava_cache.py].  Python values are
    modelled as follows.

    - [str] is a list of Unicode code points ([pystr]); [ord] is the
      injection of a code point into the integers.
    - [int] is [Z]: Python integers are unbounded, and the bit operations
      [&], [|], [<<], [>>] and [~] are [Z.land], [Z.lor], [Z.shiftl],
      [Z.shiftr] and [Z.lnot] (two's complement on both sides).
    - [float] is the primitive binary64 type [float]; [int / float]
      converts the integer first (round to nearest even, [OverflowError]
      when the integer is out of range) and then divides.
    - an exception is a value of [exn]; a computation that may raise
      returns [pyres A].
    - the outside of a run is a [World] (what was printed, which files were
      written or left unfinished) and a [Disk] (how the file system answers
      each write). *)

From Stdlib Require Import ZArith NArith List Bool Ascii String Lia Floats.
From Stdlib Require Import DecimalString DecimalPos DecimalZ.
From Stdlib Require Import Sorting.Sorted Sorting.Permutation.
From Equations Require Import Equations.
Import ListNotations.

Set Warnings "-inexact-float".

Local Open Scope Z_scope.
Local Abbreviation length := List.length.

(** ** Python values *)

Definition codepoint := N.
Definition pystr := list codepoint.

Definition ord (c : codepoint) : Z := Z.of_N c.

Fixpoint py (s : string) : pystr :=
  match s with
  | EmptyString => []
  | String a s' => N_of_ascii a :: py s'
  end.

Inductive exn : Type :=
| IndexError
| ValueError
| TypeError
| OverflowError
| UnicodeEncodeError
| OSError.

Inductive pyres (A : Type) : Type :=
| Ok (a : A)
| Raise (e : exn).
Arguments Ok {A} a.
Arguments Raise {A} e.

Definition bind {A B : Type} (m : pyres A) (k : A -> pyres B) : pyres B :=
  match m with
  | Ok a => k a
  | Raise e => Raise e
  end.

Notation "x <- m ;; k" := (bind m (fun x => k))
  (at level 61, m at next level, right associativity).
Notation "' p <- m ;; k" := (bind m (fun p => k))
  (at level 61, p pattern, m at next level, right associativity).

(** [float(n)] for an [int] n, as [PyLong_AsDouble] computes it: the nearest
    binary64 value, ties to even, and [OverflowError] when that is not
    finite. *)
Definition float_of_int (n : Z) : pyres float :=
  match binary_normalize prec emax n 0 false with
  | S754_infinity _ => Raise OverflowError
  | sf => Ok (SF2Prim sf)
  end.

(** [n / d] for an [int] n and a [float] d that is not zero. *)
Definition int_truediv (n : Z) (d : float) : pyres float :=
  x <- float_of_int n ;; Ok (x / d)%float.

(** ** Polyline decoder *)

(** The inner [while True] loop of [decode_polyline].  The cursor [index]
    into [polyline_str] is kept as the unread suffix [polyline_str[index:]];
    indexing at the end of the string raises [IndexError]. *)
Fixpoint decode_value (rest : pystr) (result shift : Z) : pyres (Z * pystr) :=
  match rest with
  | [] => Raise IndexError
  | c :: rest' =>
      let b := ord c - 63 in
      let result := Z.lor result (Z.shiftl (Z.land b 0x1f) shift) in
      let shift := shift + 5 in
      if b <? 0x20 then Ok (result, rest')
      else decode_value rest' result shift
  end.

(** [~(result >> 1) if (result & 1) else (result >> 1)] *)
Definition signed_delta (result : Z) : Z :=
  if negb (Z.land result 1 =? 0) then Z.lnot (Z.shiftr result 1)
  else Z.shiftr result 1.

Lemma decode_value_shorter rest result shift v rest' :
  decode_value rest result shift = Ok (v, rest') ->
  (length rest' < length rest)%nat.
Proof.
  revert result shift.
  induction rest as [|c rest IH]; intros result shift; simpl.
  - discriminate.
  - destruct (ord c - 63 <? 32).
    + intros [= _ <-]. lia.
    + intros H. apply IH in H. lia.
Qed.

Definition Path := list (float * float).

(** The body of the outer [while index < length] loop: one latitude value,
    one longitude value, one appended point.  It returns the unread suffix,
    the two running sums and the grown list. *)
Definition decode_step (rest : pystr) (lat lng : Z) (coords : Path)
  : pyres (pystr * Z * Z * Path) :=
  '(result1, rest1) <- decode_value rest 0 0 ;;
  let lat := lat + signed_delta result1 in
  '(result2, rest2) <- decode_value rest1 0 0 ;;
  let lng := lng + signed_delta result2 in
  y <- int_truediv lat 1e5 ;;
  x <- int_truediv lng 1e5 ;;
  Ok (rest2, lat, lng, coords ++ [(y, x)]).

Lemma decode_step_shorter rest lat lng coords rest' lat' lng' coords' :
  decode_step rest lat lng coords = Ok (rest', lat', lng', coords') ->
  (length rest' < length rest)%nat.
Proof.
  unfold decode_step.
  destruct (decode_value rest 0 0) as [[r1 rest1]|e] eqn:D1; [|discriminate].
  cbn [bind].
  destruct (decode_value rest1 0 0) as [[r2 rest2]|e] eqn:D2; [|discriminate].
  cbn [bind].
  destruct (int_truediv (lat + signed_delta r1) 100000); [|discriminate].
  destruct (int_truediv (lng + signed_delta r2) 100000); [|discriminate].
  cbn [bind]. intros [= <- _ _ _].
  apply decode_value_shorter in D1, D2. lia.
Qed.

Definition inspect {A : Type} (a : A) : {b : A | a = b} := exist _ a eq_refl.

(** The outer loop: it ends when the cursor is at the end of the string. *)
Equations? decode_loop (rest : pystr) (lat lng : Z) (coords : Path)
  : pyres Path by wf (length rest) lt :=
decode_loop [] lat lng coords := Ok coords;
decode_loop (c :: cs) lat lng coords
  with inspect (decode_step (c :: cs) lat lng coords) := {
  | exist _ (Raise e) _ => Raise e
  | exist _ (Ok (rest', lat', lng', coords')) H =>
      decode_loop rest' lat' lng' coords' }.
Proof.
  apply (decode_step_shorter (c :: cs) _ _ _ _ _ _ _ H).
Qed.

Definition decode_polyline (polyline_str : pystr) : pyres Path :=
  decode_loop polyline_str 0 0 [].

(** ** Polyline encoder *)

(** The encoder is not part of [strava_cache.py]; the definitions below are
    "the matching signed-delta scheme" of the decode round trip, on
    coordinates counted in units of 1e-5 degree, which are integers. *)

(** Modelled from the spec: the encoder's sign folding, which
    [signed_delta] undoes; the value is shifted left by one bit and
    complemented when negative, so that the sign is the lowest bit. *)
Definition fold_sign (v : Z) : Z :=
  if v <? 0 then Z.lnot (Z.shiftl v 1) else Z.shiftl v 1.

(** Modelled from the spec: the characters of a value that is not negative,
    5 bits per character from the lowest, every character but the last
    flagged with [0x20], and 63 added. *)
Equations? encode_chunks (v : Z) : pystr by wf (Z.to_nat (Z.log2 v)) lt :=
encode_chunks v with Z_le_dec 0x20 v := {
  | left _ =>
      Z.to_N (Z.lor 0x20 (Z.land v 0x1f) + 63)
      :: encode_chunks (Z.shiftr v 5)
  | right _ => [Z.to_N (v + 63)] }.
Proof.
  rewrite Z.log2_shiftr by lia.
  assert (Z.log2 32 <= Z.log2 v) by (apply Z.log2_le_mono; lia).
  change (Z.log2 32) with 5 in *. lia.
Qed.

(** Modelled from the spec: the characters of one signed difference. *)
Definition encode_value (v : Z) : pystr := encode_chunks (fold_sign v).

(** Modelled from the spec: each point as the difference of its latitude
    and of its longitude from the previous point. *)
Fixpoint encode_points (pts : list (Z * Z)) (prev_lat prev_lng : Z) : pystr :=
  match pts with
  | [] => []
  | (lat, lng) :: pts' =>
      encode_value (lat - prev_lat) ++ encode_value (lng - prev_lng)
      ++ encode_points pts' lat lng
  end.

(** Modelled from the spec: the encoding of a path, the first point taken
    from (0, 0). *)
Definition encode_polyline (pts : list (Z * Z)) : pystr :=
  encode_points pts 0 0.

(** ** Geometry deriver *)

(** The builtins [min] and [max] on a list: the first item, replaced by each
    later item that is strictly smaller (for [max]: strictly greater);
    [ValueError] on an empty list. *)
Section MinMax.
Context {A : Type} (ltb : A -> A -> bool).

Definition py_min (l : list A) : pyres A :=
  match l with
  | [] => Raise ValueError
  | x :: xs =>
      Ok (fold_left (fun m item => if ltb item m then item else m) xs x)
  end.

Definition py_max (l : list A) : pyres A :=
  match l with
  | [] => Raise ValueError
  | x :: xs =>
      Ok (fold_left (fun m item => if ltb m item then item else m) xs x)
  end.
End MinMax.

Definition bbox_from_coords (coords : Path) : pyres (list float) :=
  let lats := map fst coords in
  let lngs := map snd coords in
  minx <- py_min PrimFloat.ltb lngs ;;
  miny <- py_min PrimFloat.ltb lats ;;
  maxx <- py_max PrimFloat.ltb lngs ;;
  maxy <- py_max PrimFloat.ltb lats ;;
  Ok [minx; miny; maxx; maxy].

(** Unpacking [b] into four names raises [ValueError] for any other
    length. *)
Definition center_from_bbox (b : list float) : pyres (list float) :=
  match b with
  | [minx; miny; maxx; maxy] =>
      Ok [((minx + maxx) / 2.0)%float; ((miny + maxy) / 2.0)%float]
  | _ => Raise ValueError
  end.


(** ** Identifier normalizer *)

(** [str(n)] for an [int] n. *)
Definition str_of_int (n : Z) : pystr :=
  py (NilZero.string_of_int (Z.to_int n)).

Definition is_ascii (c : codepoint) : bool := (c <? 128)%N.

(** [\s] and [str.strip] on an ASCII character: tab, line feed, vertical tab,
    form feed, carriage return, the four separators U+001C..U+001F and the
    space. *)
Definition is_space (c : codepoint) : bool :=
  ((9 <=? c) && (c <=? 13) || (28 <=? c) && (c <=? 32))%N.

(** [\w] on an ASCII character: a letter, a digit or the underscore. *)
Definition is_word (c : codepoint) : bool :=
  ((48 <=? c) && (c <=? 57) || (65 <=? c) && (c <=? 90)
   || (97 <=? c) && (c <=? 122) || (c =? 95))%N.

Definition hyphen : codepoint := 45%N.

(** [str.lower] on an ASCII character. *)
Definition lower (c : codepoint) : codepoint :=
  if ((65 <=? c) && (c <=? 90))%N then (c + 32)%N else c.

Fixpoint lstrip (s : pystr) : pystr :=
  match s with
  | c :: s' => if is_space c then lstrip s' else s
  | [] => []
  end.

Definition strip (s : pystr) : pystr := rev (lstrip (rev (lstrip s))).

(** [re.sub(r"[-\s]+", "-", value)]: every maximal run of hyphens and
    whitespace becomes one hyphen.  [in_run] tells whether the previous
    character belonged to a run already replaced. *)
Fixpoint collapse (in_run : bool) (s : pystr) : pystr :=
  match s with
  | [] => []
  | c :: s' =>
      if (c =? hyphen)%N || is_space c
      then (if in_run then collapse true s' else hyphen :: collapse true s')
      else c :: collapse false s'
  end.

Section Slugify.
(** [unicodedata.normalize("NFKD", _)], from Python's library. *)
Variable NFKD : pystr -> pystr.

Definition slugify (value : pystr) : pystr :=
  (* .encode("ascii", "ignore").decode("ascii") *)
  let value := filter is_ascii (NFKD value) in
  (* re.sub(r"[^\w\s-]", "", value).strip().lower() *)
  let value :=
    filter (fun c => is_word c || is_space c || (c =? hyphen)%N) value in
  let value := map lower (strip value) in
  let value := collapse false value in
  match firstn 60 value with
  | [] => py "route"
  | v => v
  end.
End Slugify.

(** The decomposition mappings of the Latin-1 block (U+00A0..U+00FF), from
    the Unicode character database; every other code point below U+0100
    has none.  A capital letter with a mark decomposes into the letter and a
    combining mark (grave U+0300, acute U+0301, circumflex U+0302, tilde
    U+0303, diaeresis U+0308, ring U+030A, cedilla U+0327); the small
    letters, 32 code points further, decompose alike. *)
Local Open Scope N_scope.

Definition decomp_capital (c : codepoint) : option (codepoint * codepoint) :=
  match c with
  | 0xC0 => Some (0x41, 0x300) | 0xC1 => Some (0x41, 0x301)
  | 0xC2 => Some (0x41, 0x302) | 0xC3 => Some (0x41, 0x303)
  | 0xC4 => Some (0x41, 0x308) | 0xC5 => Some (0x41, 0x30A)
  | 0xC7 => Some (0x43, 0x327)
  | 0xC8 => Some (0x45, 0x300) | 0xC9 => Some (0x45, 0x301)
  | 0xCA => Some (0x45, 0x302) | 0xCB => Some (0x45, 0x308)
  | 0xCC => Some (0x49, 0x300) | 0xCD => Some (0x49, 0x301)
  | 0xCE => Some (0x49, 0x302) | 0xCF => Some (0x49, 0x308)
  | 0xD1 => Some (0x4E, 0x303)
  | 0xD2 => Some (0x4F, 0x300) | 0xD3 => Some (0x4F, 0x301)
  | 0xD4 => Some (0x4F, 0x302) | 0xD5 => Some (0x4F, 0x303)
  | 0xD6 => Some (0x4F, 0x308)
  | 0xD9 => Some (0x55, 0x300) | 0xDA => Some (0x55, 0x301)
  | 0xDB => Some (0x55, 0x302) | 0xDC => Some (0x55, 0x308)
  | 0xDD => Some (0x59, 0x301)
  | _ => None
  end.

Definition decomp_latin1 (c : codepoint) : list codepoint :=
  match c with
  | 0xA0 => [0x20] | 0xA8 => [0x20; 0x308] | 0xAA => [0x61]
  | 0xAF => [0x20; 0x304] | 0xB2 => [0x32] | 0xB3 => [0x33]
  | 0xB4 => [0x20; 0x301] | 0xB5 => [0x3BC] | 0xB8 => [0x20; 0x327]
  | 0xB9 => [0x31] | 0xBA => [0x6F]
  | 0xBC => [0x31; 0x2044; 0x34] | 0xBD => [0x31; 0x2044; 0x32]
  | 0xBE => [0x33; 0x2044; 0x34]
  | 0xFF => [0x79; 0x308]
  | _ =>
      match decomp_capital c with
      | Some (letter, mark) => [letter; mark]
      | None =>
          if (0xE0 <=? c) && (c <=? 0xFD) then
            match decomp_capital (c - 32) with
            | Some (letter, mark) => [letter + 32; mark]
            | None => [c]
            end
          else [c]
      end
  end.

Local Close Scope N_scope.

(** NFKD on strings of code points below U+0100: each decomposition has at
    most one combining mark, so there is nothing to reorder. *)
Definition nfkd_latin1 (s : pystr) : pystr := flat_map decomp_latin1 s.

(** ** Numbers of a route record *)

(** A JSON number, as [json] parses it: an [int] or a [float]. *)
Inductive jnum : Type :=
| JInt (n : Z)
| JFloat (x : float).

(** [float(v)] for a value that is a number or [None]. *)
Definition py_float (v : option jnum) : pyres float :=
  match v with
  | None => Raise TypeError
  | Some (JInt n) => float_of_int n
  | Some (JFloat x) => Ok x
  end.

(** Truth value of a number or [None]. *)
Definition truthy_num (v : option jnum) : bool :=
  match v with
  | None => false
  | Some (JInt n) => negb (n =? 0)
  | Some (JFloat x) => negb (x =? 0)%float
  end.

(** [v or 0.0] *)
Definition or_zero (v : option jnum) : option jnum :=
  if truthy_num v then v else Some (JFloat 0.0).

(** [v / d] for a number [v] and a float [d]; [None / d] is a
    [TypeError]. *)
Definition num_truediv (v : option jnum) (d : float) : pyres float :=
  match v with
  | None => Raise TypeError
  | Some (JInt n) => int_truediv n d
  | Some (JFloat x) => Ok (x / d)%float
  end.

(** [round(x, ndigits)] for a float and [0 <= ndigits]: NaN and the
    infinities round to themselves; a finite [x] is rounded, on its exact
    value and with ties to even, to [ndigits] decimals, and the float
    nearest to that decimal is returned, the sign kept. *)
Definition round_half_even_shr (n : Z) (k : Z) : Z :=
  let q := Z.shiftr n k in
  let r := Z.land n (Z.ones k) in
  let half := Z.shiftl 1 (k - 1) in
  if (half <? r) || ((half =? r) && Z.odd q) then q + 1 else q.

Definition nearest_quotient (s : bool) (q d : Z) : float :=
  if q =? 0 then SF2Prim (S754_zero s)
  else
    let '(mz, ez, lz) := SFdiv_core_binary prec emax q 0 d 0 in
    SF2Prim (binary_round_aux prec emax s mz ez lz).

Definition py_round (x : float) (ndigits : Z) : float :=
  match Prim2SF x with
  | S754_finite s m e =>
      if 323 <? ndigits then x
      else
        let scale := 10 ^ ndigits in
        let q :=
          if 0 <=? e then Z.shiftl (Zpos m) e * scale
          else round_half_even_shr (Zpos m * scale) (- e) in
        nearest_quotient s q scale
  | _ => x
  end.

(** [km]: [round((meters or 0.0) / 1000.0, 3)] *)
Definition km (meters : option jnum) : pyres float :=
  x <- num_truediv (or_zero meters) 1000.0 ;;
  Ok (py_round x 3).

(** ** Route records, GeoJSON documents and the manifest *)

(** [m.get("polyline")] and [m.get("summary_polyline")] of a [map] object;
    [None] when the key is missing or null. *)
Record PolyMap : Type := {
  polyline : option pystr;
  summary_polyline : option pystr
}.

(** A key of a route record that is missing, null or present. *)
Inductive field (A : Type) : Type :=
| Missing
| Null
| Val (a : A).
Arguments Missing {A}.
Arguments Null {A}.
Arguments Val {A} a.

(** A route of the listing, with the keys [main] reads.  For the keys read
    with [r.get(key)] and no default, [None] stands for missing or null. *)
Record RawRoute : Type := {
  r_id : Z;
  r_name : option pystr;
  r_distance : field jnum;
  r_elevation_gain : field jnum;
  r_type : option pystr;
  r_updated_at : option pystr;
  r_created_at : option pystr;
  r_map : option PolyMap
}.

(** [r.get(key, 0.0)] *)
Definition get_default_zero (f : field jnum) : option jnum :=
  match f with
  | Missing => Some (JFloat 0.0)
  | Null => None
  | Val v => Some v
  end.

(** [a or b] on values that are a string or [None]. *)
Definition or_str (a b : option pystr) : option pystr :=
  match a with
  | Some (_ :: _) => a
  | _ => b
  end.

(** [(d.get("map") or {}).get("polyline")
     or (d.get("map") or {}).get("summary_polyline")] *)
Definition map_polyline (m : option PolyMap) : option pystr :=
  match m with
  | None => None
  | Some m => or_str (polyline m) (summary_polyline m)
  end.

(** What [get_route_detail] did: raised, or returned a record with this
    [map]. *)
Inductive FetchResult : Type :=
| FetchFailed (message : pystr)
| Fetched (detail_map : option PolyMap).

Record Props : Type := {
  p_id : Z;
  p_name : pystr;
  p_slug : pystr;
  p_type : option pystr;
  p_distance_m : float;
  p_distance_km : float;
  p_elev_gain_m : float;
  p_updated_at : option pystr
}.

(** [{"type": "Feature", "properties": ..., "geometry": {"type":
    "LineString", "coordinates": ...}}] *)
Record Feature : Type := {
  f_properties : Props;
  f_coordinates : list (list float)
}.

(** [{"type": "FeatureCollection", "features": ..., "bbox": ...}] *)
Record FeatureCollection : Type := {
  gj_features : list Feature;
  gj_bbox : list float
}.

Record Entry : Type := {
  e_id : Z;
  e_name : pystr;
  e_slug : pystr;
  e_type : option pystr;
  e_distance_m : float;
  e_distance_km : float;
  e_elev_gain_m : float;
  e_file : pystr;
  e_bbox : list float;
  e_center : list float;
  e_updated_at : option pystr
}.

Record Index : Type := {
  generated_at : pystr;
  athlete_id : Z;
  count : Z;
  routes : list Entry
}.

(** [polyline_to_geojson_feature], called with a properties mapping. *)
Definition polyline_to_geojson_feature (coords : Path) (properties : Props)
  : Feature :=
  let line := map (fun '(lat, lon) => [lon; lat]) coords in
  {| f_properties := properties; f_coordinates := line |}.

(** ** Files and output *)

Inductive Doc : Type :=
| GeoJSON (gj : FeatureCollection)
| Manifest (index : Index).

(** What a run has printed, the documents it has written out in full, and
    the files it has opened for writing and left without their document;
    each oldest first. *)
Record World : Type := {
  stdout : list pystr;
  written : list (pystr * Doc);
  unfinished : list pystr
}.

Definition print (line : pystr) (w : World) : World :=
  {| stdout := stdout w ++ [line]; written := written w;
     unfinished := unfinished w |}.

(** What the file system does when a file is opened for writing and a
    document is sent to it: it stores the document; or [open] raises
    [OSError] and no file is created or emptied; or the file is opened, and
    a write or the closing of the file raises [OSError]. *)
Inductive DiskAnswer : Type :=
| Stores
| RefusesOpen
| RefusesWrite.

(** The file system, as a run meets it: its answer for a path, after the
    documents written before. *)
Definition Disk := list (pystr * Doc) -> pystr -> DiskAnswer.

(** A file opened with [encoding="utf-8"] takes every string but one that
    holds a surrogate code point. *)
Definition is_surrogate (c : codepoint) : bool :=
  ((0xD800 <=? c) && (c <=? 0xDFFF))%N.

Definition utf8_encodable (s : pystr) : bool :=
  forallb (fun c => negb (is_surrogate c)) s.

Definition opt_strings (s : option pystr) : list pystr :=
  match s with
  | Some s => [s]
  | None => []
  end.

(** The strings that [json.dump] writes for a document, apart from its
    keys, which are ASCII. *)
Definition props_strings (p : Props) : list pystr :=
  p_name p :: p_slug p :: opt_strings (p_type p)
  ++ opt_strings (p_updated_at p).

Definition entry_strings (e : Entry) : list pystr :=
  e_name e :: e_slug e :: e_file e :: opt_strings (e_type e)
  ++ opt_strings (e_updated_at e).

Definition doc_strings (doc : Doc) : list pystr :=
  match doc with
  | GeoJSON gj =>
      flat_map (fun f => props_strings (f_properties f)) (gj_features gj)
  | Manifest index => generated_at index :: flat_map entry_strings (routes index)
  end.

Definition leave_unfinished (path : pystr) (w : World) : World :=
  {| stdout := stdout w; written := written w;
     unfinished := unfinished w ++ [path] |}.

(** [with open(path, "w", encoding="utf-8") as f:
       json.dump(doc, f, ensure_ascii=False, indent=2)].
    [open] creates or empties the file before anything is written, so a
    failure after it leaves the file behind without its document:
    [OSError] from the file system, [UnicodeEncodeError] when the document
    holds a string that cannot be encoded. *)
Definition write_file (disk : Disk) (path : pystr) (doc : Doc) (w : World)
  : World * pyres unit :=
  match disk (written w) path with
  | RefusesOpen => (w, Raise OSError)
  | RefusesWrite => (leave_unfinished path w, Raise OSError)
  | Stores =>
      if forallb utf8_encodable (doc_strings doc)
      then ({| stdout := stdout w; written := written w ++ [(path, doc)];
               unfinished := unfinished w |}, Ok tt)
      else (leave_unfinished path w, Raise UnicodeEncodeError)
  end.

Definition slash : codepoint := 47%N.

Definition startswith_sep (s : pystr) : bool :=
  match s with
  | c :: _ => (c =? slash)%N
  | [] => false
  end.

Definition endswith_sep (s : pystr) : bool := startswith_sep (rev s).

(** [os.path.join(a, b)] on POSIX. *)
Definition os_path_join (a b : pystr) : pystr :=
  if startswith_sep b then b
  else if match a with [] => true | _ => endswith_sep a end then a ++ b
  else a ++ [slash] ++ b.

(** ** Sorting *)

(** [<] on strings: lexicographic on code points. *)
Fixpoint str_ltb (a b : pystr) : bool :=
  match a, b with
  | _, [] => false
  | [], _ :: _ => true
  | x :: a', y :: b' =>
      if (x <? y)%N then true
      else if (y <? x)%N then false
      else str_ltb a' b'
  end.

Fixpoint str_eqb (a b : pystr) : bool :=
  match a, b with
  | [], [] => true
  | x :: a', y :: b' => (x =? y)%N && str_eqb a' b'
  | _, _ => false
  end.

(** [<] on pairs of strings: the first components decide unless they are
    equal. *)
Definition pair_ltb (p q : pystr * pystr) : bool :=
  if str_eqb (fst p) (fst q) then str_ltb (snd p) (snd q)
  else str_ltb (fst p) (fst q).

(** [list.sort(key=...)]: a stable sort, ascending by key, that compares
    keys with [<].  Stable insertion: an item passes the items whose key is
    strictly smaller and stops before the first other one. *)
Section Sort.
Context {A K : Type} (ltb : K -> K -> bool) (key : A -> K).

Fixpoint insert_by_key (x : A) (l : list A) : list A :=
  match l with
  | [] => [x]
  | y :: l' =>
      if ltb (key y) (key x) then y :: insert_by_key x l'
      else x :: y :: l'
  end.

Definition sort_by_key (l : list A) : list A :=
  fold_right insert_by_key [] l.
End Sort.

(** [lambda x: (x["type"] or "", x["name"] or "")] *)
Definition sort_key (x : Entry) : pystr * pystr :=
  (match e_type x with Some t => t | None => [] end, e_name x).

(** ** Requests to the service *)

(** What [api_get] can raise: the exception of [requests.get] itself (no
    connection, timeout), [RuntimeError] for a rate limit, the [HTTPError]
    of [raise_for_status], and the error of [r.json()] on a body that is
    not JSON. *)
Inductive api_exn : Type :=
| RequestException
| RuntimeError
| HTTPError
| JSONDecodeError.

(** A response of [requests.get]: its status code and its body as
    [r.json()] parses it, [None] when it does not parse. *)
Record Response (J : Type) : Type := {
  status_code : Z;
  json : option J
}.
Arguments status_code {J} _.
Arguments json {J} _.

(** [api_get], given what [requests.get] did: [None] when it raised, the
    response otherwise. *)
Definition api_get {J : Type} (sent : option (Response J)) : api_exn + J :=
  match sent with
  | None => inl RequestException
  | Some r =>
      if status_code r =? 429 then inl RuntimeError
      else if (400 <=? status_code r) && (status_code r <? 600)
      then inl HTTPError
      else
        match json r with
        | Some data => inr data
        | None => inl JSONDecodeError
        end
  end.

(** [list_athlete_routes].  [requests_get page per_page] is what
    [requests.get] does for the request for a page; the result comes with
    the pages that were asked for, in order. *)
Section Listing.
Context {A : Type}.
Variable requests_get : Z -> Z -> option (Response (list A)).
Variable per_page : Z.

(** The iterations of [for page in range(1, max_pages + 1)] that are left,
    [n] of them, from [page] on. *)
Fixpoint list_pages (n : nat) (page : Z) (routes : list A) (asked : list Z)
  : list Z * (api_exn + list A) :=
  match n with
  | O => (asked, inr routes)
  | S n' =>
      let asked := asked ++ [page] in
      match api_get (requests_get page per_page) with
      | inl e => (asked, inl e)
      | inr data =>
          match data with
          | [] => (asked, inr routes)
          | _ =>
              let routes := routes ++ data in
              if Z.of_nat (length data) <? per_page then (asked, inr routes)
              else list_pages n' (page + 1) routes asked
          end
      end
  end.

Definition list_athlete_routes (max_pages : Z)
  : list Z * (api_exn + list A) :=
  list_pages (Z.to_nat max_pages) 1 [] [].
End Listing.

(** ** The caching run *)

(** [f"Route {route_id}"] *)
Definition fallback_name (r : RawRoute) : pystr :=
  py "Route " ++ str_of_int (r_id r).

(** [f"Found {len(routes)} routes for athlete {athlete_id}"] *)
Definition found_message (athlete : Z) (rs : list RawRoute) : pystr :=
  py "Found " ++ str_of_int (Z.of_nat (length rs))
  ++ py " routes for athlete " ++ str_of_int athlete.

Section Main.
(** [unicodedata.normalize("NFKD", _)] *)
Variable NFKD : pystr -> pystr.
(** The environment's [ROUTES_DIR] and [INDEX_PATH], defaults applied. *)
Variable ROUTES_DIR : pystr.
Variable INDEX_PATH : pystr.
(** What [get_route_detail(route_id, token)] does for each route. *)
Variable get_route_detail : Z -> FetchResult.
(** [datetime.now(timezone.utc).isoformat()] *)
Variable now : pystr.
(** The file system that the run writes to. *)
Variable disk : Disk.

(** The polyline string [mp] of a route, and the warning printed when
    the detail request failed. *)
Definition resolve_polyline (r : RawRoute) (w : World)
  : World * option pystr :=
  match get_route_detail (r_id r) with
  | Fetched detail_map =>
      let mp := map_polyline detail_map in
      match mp with
      | Some (_ :: _) => (w, mp)
      | _ => (w, map_polyline (r_map r))
      end
  | FetchFailed e =>
      (print (py "Warning: could not fetch detail for route "
              ++ str_of_int (r_id r) ++ py ": " ++ e) w,
       map_polyline (r_map r))
  end.

Definition route_name (r : RawRoute) : pystr :=
  match r_name r with
  | Some (c :: n) => c :: n
  | _ => fallback_name r
  end.

Definition route_filename (route_id : Z) (slug : pystr) : pystr :=
  py "strava_route_" ++ str_of_int route_id ++ py "_" ++ slug
  ++ py ".geojson".

(** One iteration of [for r in routes].  The result is the world after
    it and either the grown list [index["routes"]] or the exception that
    left the loop. *)
Definition process_route (r : RawRoute) (w : World) (acc : list Entry)
  : World * pyres (list Entry) :=
  let route_id := r_id r in
  let name := route_name r in
  let slug := slugify NFKD name in
  let distance_m := get_default_zero (r_distance r) in
  let elev_gain_m := get_default_zero (r_elevation_gain r) in
  let route_type := r_type r in
  let updated_at := or_str (r_updated_at r) (r_created_at r) in
  let '(w, mp) := resolve_polyline r w in
  match mp with
  | None | Some [] =>
      (print (py "Skipping route " ++ str_of_int route_id
              ++ py " (no polyline)") w, Ok acc)
  | Some mp =>
      match decode_polyline mp with
      | Raise e => (w, Raise e)
      | Ok [] =>
          (print (py "Skipping route " ++ str_of_int route_id
                  ++ py " (empty decoded coords)") w, Ok acc)
      | Ok coords =>
          match
            bbox <- bbox_from_coords coords ;;
            center <- center_from_bbox bbox ;;
            dm <- py_float distance_m ;;
            dkm <- km distance_m ;;
            eg <- py_float (or_zero elev_gain_m) ;;
            Ok (bbox, center, dm, dkm, eg)
          with
          | Raise e => (w, Raise e)
          | Ok (bbox, center, dm, dkm, eg) =>
              let props :=
                {| p_id := route_id; p_name := name; p_slug := slug;
                   p_type := route_type; p_distance_m := dm;
                   p_distance_km := dkm; p_elev_gain_m := eg;
                   p_updated_at := updated_at |} in
              let feature := polyline_to_geojson_feature coords props in
              let gj :=
                {| gj_features := [feature]; gj_bbox := bbox |} in
              let filename := route_filename route_id slug in
              let path := os_path_join ROUTES_DIR filename in
              match write_file disk path (GeoJSON gj) w with
              | (w, Raise e) => (w, Raise e)
              | (w, Ok _) =>
                  (w, Ok (acc ++ [
                    {| e_id := route_id; e_name := name; e_slug := slug;
                       e_type := route_type; e_distance_m := dm;
                       e_distance_km := dkm; e_elev_gain_m := eg;
                       e_file := py "routes/" ++ filename;
                       e_bbox := bbox; e_center := center;
                       e_updated_at := updated_at |}]))
              end
          end
      end
  end.

Fixpoint for_routes (rs : list RawRoute) (w : World) (acc : list Entry)
  : World * pyres (list Entry) :=
  match rs with
  | [] => (w, Ok acc)
  | r :: rs' =>
      match process_route r w acc with
      | (w', Ok acc') => for_routes rs' w' acc'
      | (w', Raise e) => (w', Raise e)
      end
  end.

(** [main], from the listing on: [athlete] is the identifier that
    [get_athlete] returned and [rs] the list that [list_athlete_routes]
    returned. *)
Definition main (athlete : Z) (rs : list RawRoute) (w : World)
  : World * pyres unit :=
  let w := print (found_message athlete rs) w in
  match for_routes rs w [] with
  | (w, Raise e) => (w, Raise e)
  | (w, Ok entries) =>
      let n := Z.of_nat (length entries) in
      let index :=
        {| generated_at := now; athlete_id := athlete; count := n;
           routes := sort_by_key pair_ltb sort_key entries |} in
      match write_file disk INDEX_PATH (Manifest index) w with
      | (w, Raise e) => (w, Raise e)
      | (w, Ok _) =>
          (print (py "Wrote " ++ str_of_int n ++ py " routes to "
                  ++ ROUTES_DIR ++ py " and index to " ++ INDEX_PATH) w,
           Ok tt)
      end
  end.
End Main.

Definition empty_world : World :=
  {| stdout := []; written := []; unfinished := [] |}.

(** A file system that stores every document. *)
Definition always_stores : Disk := fun _ _ => Stores.

(** * Vocabulary of the statements *)

(** ** Paths *)

(** What the decoder makes of a sequence of running sums: each integer
    [k] becomes the float [k / 1e5], as in [decode_step]. *)
Fixpoint e5_path (pts : list (Z * Z)) : pyres Path :=
  match pts with
  | [] => Ok []
  | (lat, lng) :: pts' =>
      y <- int_truediv lat 1e5 ;;
      x <- int_truediv lng 1e5 ;;
      path <- e5_path pts' ;;
      Ok ((y, x) :: path)
  end.

(** Modelled from the spec: the integer that the encoder stores for a
    coordinate, its number of units of 1e-5 degree: the integer nearest to
    the coordinate times 10^5, computed on the exact value of the float,
    ties to even; the encoder raises on NaN and on the infinities. *)
Definition quantise (c : float) : pyres Z :=
  match Prim2SF c with
  | S754_zero _ => Ok 0
  | S754_finite s m e =>
      let q :=
        if 0 <=? e then Z.shiftl (Zpos m) e * 100000
        else round_half_even_shr (Zpos m * 100000) (- e) in
      Ok (if s then - q else q)
  | S754_infinity _ => Raise OverflowError
  | S754_nan => Raise ValueError
  end.

(** Modelled from the spec: the integers stored for the points of a path,
    latitude first. *)
Fixpoint quantise_path (path : Path) : pyres (list (Z * Z)) :=
  match path with
  | [] => Ok []
  | (lat, lng) :: path' =>
      a <- quantise lat ;;
      b <- quantise lng ;;
      pts <- quantise_path path' ;;
      Ok ((a, b) :: pts)
  end.

(** Modelled from the spec: the encoder on a path of floats. *)
Definition encode_path (path : Path) : pyres pystr :=
  pts <- quantise_path path ;; Ok (encode_polyline pts).

(** A float that is rounded to 5 decimal places: rounding it to 5 places
    gives the same number, [round(x, 5) == x]. *)
Definition five_decimals (x : float) : Prop :=
  (py_round x 5 =? x)%float = true.

(** 2^36.  Below it a float times 10^5 is less than 2^53, so that the
    integer stored for it converts to a float without rounding; latitudes
    and longitudes are far below. *)
Definition coordinate_limit : float := 68719476736%float.

Definition in_range (x : float) : Prop :=
  (abs x <=? coordinate_limit)%float = true.

(** A coordinate of the round trip, and a path of such coordinates. *)
Definition coordinate (x : float) : Prop := five_decimals x /\ in_range x.

Definition coordinates (path : Path) : Prop :=
  Forall (fun p => coordinate (fst p) /\ coordinate (snd p)) path.

(** [==] on floats and on paths: 0.0 and -0.0 are the same number. *)
Definition same_number (x y : float) : Prop := (x =? y)%float = true.

Definition same_path (p q : Path) : Prop :=
  Forall2 (fun a b => same_number (fst a) (fst b)
                      /\ same_number (snd a) (snd b)) p q.

Definition no_negative_zero (path : Path) : Prop :=
  Forall (fun p => fst p <> (-0)%float /\ snd p <> (-0)%float) path.

(** A coordinate is a number: any float but NaN. *)
Definition is_number (x : float) : Prop := PrimFloat.is_nan x = false.

Definition numbers (path : Path) : Prop :=
  Forall (fun p => is_number (fst p) /\ is_number (snd p)) path.

(** [b] is the bounding box of [coords]: it bounds every point, and each
    of its four numbers is the coordinate of some point. *)
Definition bounding_box (coords : Path) (b : list float) : Prop :=
  exists minLon minLat maxLon maxLat,
    b = [minLon; minLat; maxLon; maxLat]
    /\ (forall lat lon, In (lat, lon) coords ->
          PrimFloat.leb minLon lon = true /\ PrimFloat.leb lon maxLon = true
          /\ PrimFloat.leb minLat lat = true
          /\ PrimFloat.leb lat maxLat = true)
    /\ (exists p, In p coords /\ snd p = minLon)
    /\ (exists p, In p coords /\ fst p = minLat)
    /\ (exists p, In p coords /\ snd p = maxLon)
    /\ (exists p, In p coords /\ fst p = maxLat).

(** ** Order of strings and of sort keys *)

(** Lexicographic order on code points. *)
Inductive str_lt : pystr -> pystr -> Prop :=
| str_lt_nil c b : str_lt [] (c :: b)
| str_lt_head x y a b : (x < y)%N -> str_lt (x :: a) (y :: b)
| str_lt_tail x a b : str_lt a b -> str_lt (x :: a) (x :: b).

(** Lexicographic order on pairs (type, name). *)
Definition key_lt (p q : pystr * pystr) : Prop :=
  str_lt (fst p) (fst q) \/ (fst p = fst q /\ str_lt (snd p) (snd q)).

Definition key_le (p q : pystr * pystr) : Prop := p = q \/ key_lt p q.

(** [==] on pairs of strings. *)
Definition pair_eqb (p q : pystr * pystr) : bool :=
  str_eqb (fst p) (fst q) && str_eqb (snd p) (snd q).

Definition entries_sorted (l : list Entry) : Prop :=
  StronglySorted (fun a b => key_le (sort_key a) (sort_key b)) l.

(** ** Rank of a binary64 value

    Away from NaN, [SFcompare] is the lexicographic comparison of this rank:
    class and sign, then exponent, then mantissa. *)
Module SFOrder.

Definition rank (f : spec_float) : Z * Z * Z :=
  match f with
  | S754_nan => (0, 0, 0)
  | S754_zero _ => (0, 0, 0)
  | S754_infinity true => (-2, 0, 0)
  | S754_infinity false => (2, 0, 0)
  | S754_finite true m e => (-1, - e, Zneg m)
  | S754_finite false m e => (1, e, Zpos m)
  end.

Definition lex_cmp (p q : Z * Z * Z) : comparison :=
  let '(a, b, c) := p in
  let '(a', b', c') := q in
  match a ?= a' with
  | Eq => match b ?= b' with Eq => c ?= c' | r => r end
  | r => r
  end.

Definition lex_le (p q : Z * Z * Z) : Prop :=
  let '(a, b, c) := p in
  let '(a', b', c') := q in
  a < a' \/ (a = a' /\ (b < b' \/ (b = b' /\ c <= c'))).

Definition lex_lt (p q : Z * Z * Z) : Prop :=
  let '(a, b, c) := p in
  let '(a', b', c') := q in
  a < a' \/ (a = a' /\ (b < b' \/ (b = b' /\ c < c'))).

Definition not_nan (f : spec_float) : Prop := f <> S754_nan.

End SFOrder.

(** ** Packaged routes *)

Section Packaged.
Variable NFKD : pystr -> pystr.
Variable ROUTES_DIR : pystr.

(** What a route that is packaged leaves behind: one geometry file and one
    manifest entry, built from the same name, slug and numbers. *)
Definition packaged (r : RawRoute) (coords : Path) (bbox center : list float)
  (dm dkm eg : float) : pystr * FeatureCollection * Entry :=
  let name := route_name r in
  let slug := slugify NFKD name in
  let updated_at := or_str (r_updated_at r) (r_created_at r) in
  let filename := route_filename (r_id r) slug in
  (os_path_join ROUTES_DIR filename,
   {| gj_features :=
        [ {| f_properties :=
               {| p_id := r_id r; p_name := name; p_slug := slug;
                  p_type := r_type r; p_distance_m := dm;
                  p_distance_km := dkm; p_elev_gain_m := eg;
                  p_updated_at := updated_at |};
             f_coordinates := map (fun '(lat, lon) => [lon; lat]) coords |} ];
      gj_bbox := bbox |},
   {| e_id := r_id r; e_name := name; e_slug := slug; e_type := r_type r;
      e_distance_m := dm; e_distance_km := dkm; e_elev_gain_m := eg;
      e_file := py "routes/" ++ filename; e_bbox := bbox;
      e_center := center; e_updated_at := updated_at |}).

End Packaged.

(** ** Conditions on a route *)

(** The path of the geometry file of a route. *)
Definition route_path (NFKD : pystr -> pystr) (ROUTES_DIR : pystr)
  (r : RawRoute) : pystr :=
  os_path_join ROUTES_DIR
    (route_filename (r_id r) (slugify NFKD (route_name r))).

(** The strings of a route that go into its file, the slug apart: its
    name, its type and its timestamp. *)
Definition route_strings (r : RawRoute) : list pystr :=
  route_name r :: opt_strings (r_type r)
  ++ opt_strings (or_str (r_updated_at r) (r_created_at r)).

(** The file of a route can be stored: the file system takes it, and no
    string of the route holds a surrogate. *)
Definition storable (NFKD : pystr -> pystr) (ROUTES_DIR : pystr)
  (disk : Disk) (r : RawRoute) (w : World) : Prop :=
  disk (written w) (route_path NFKD ROUTES_DIR r) = Stores
  /\ forallb utf8_encodable (route_strings r) = true.

(** A number that [float] accepts: a float, or an integer within the range
    of the floats. *)
Definition converts (v : jnum) : Prop := exists x, py_float (Some v) = Ok x.

(** A distance that is missing or a number that [float] accepts, and an
    elevation gain that is missing, null or such a number. *)
Definition distance_ok (f : field jnum) : Prop :=
  match f with
  | Missing => True
  | Null => False
  | Val v => converts v
  end.

Definition elevation_ok (f : field jnum) : Prop :=
  match f with
  | Val v => converts v
  | _ => True
  end.

(** ** Concrete inputs *)

Definition canonical : pystr := py "_p~iF~ps|U_ulLnnqC_mqNvxq`@".

(** "Café de l'Été!" and its decomposed form (each accented letter followed
    by U+0301, the combining acute accent). *)
Definition cafe : pystr :=
  py "Caf" ++ [0xE9%N] ++ py " de l'" ++ [0xC9%N] ++ py "t" ++ [0xE9%N]
  ++ py "!".

Definition cafe_decomposed : pystr :=
  py "Cafe" ++ [0x301%N] ++ py " de l'E" ++ [0x301%N] ++ py "te"
  ++ [0x301%N] ++ py "!".

(** A route of the listing with an identifier, a name, a type and a summary
    polyline, and nothing else. *)
Definition listed (route_id : Z) (name type : option pystr)
  (summary : option pystr) : RawRoute :=
  {| r_id := route_id; r_name := name; r_distance := Missing;
     r_elevation_gain := Missing; r_type := type; r_updated_at := None;
     r_created_at := None;
     r_map := Some {| polyline := None; summary_polyline := summary |} |}.

(** The detail request returns a record without a map. *)
Definition no_detail (_ : Z) : FetchResult := Fetched None.

Definition timestamp : pystr := py "2024-05-01T06:00:00+00:00".

(** The manifest, when it is the last file written. *)
Definition last_manifest (w : World) : option (pystr * Index) :=
  match rev (written w) with
  | (path, Manifest index) :: _ => Some (path, index)
  | _ => None
  end.

Definition entries_of (res : pyres (list Entry)) : list Entry :=
  match res with
  | Ok entries => entries
  | Raise _ => []
  end.

Definition three_routes : list RawRoute :=
  [ listed 1 (Some (py "B")) (Some (py "run")) (Some (py "_p~iF~ps|U"));
    listed 2 (Some (py "A")) (Some (py "ride")) (Some (py "_p~iF~ps|U"));
    listed 3 (Some (py "Z")) (Some (py "ride")) (Some (py "_p~iF~ps|U")) ].

(** A route whose polyline is cut short in its second value, and one whose
    polyline is sound. *)
Definition cut_short : RawRoute :=
  listed 1 (Some (py "A")) (Some (py "run")) (Some (py "_p~iF~ps")).

Definition sound : RawRoute :=
  listed 2 (Some (py "B")) (Some (py "run")) (Some (py "_p~iF~ps|U")).

(** The loop on the sound route, as the first of three. *)
Definition sound_first : World * pyres (list Entry) :=
  for_routes nfkd_latin1 (py "routes") no_detail always_stores [sound]
    (print (found_message 7 [sound; cut_short; sound]) empty_world) [].

(** A route with a null elevation gain and without a distance. *)
Definition no_numbers : RawRoute :=
  {| r_id := 8; r_name := Some (py "Loop"); r_distance := Missing;
     r_elevation_gain := Null; r_type := Some (py "run");
     r_updated_at := None; r_created_at := None;
     r_map := Some {| polyline := None;
                      summary_polyline := Some (py "_p~iF~ps|U") |} |}.

(** A route whose name is a lone surrogate, U+D800, and the iteration on
    it. *)
Definition surrogate_name : RawRoute :=
  listed 4 (Some [0xD800%N]) (Some (py "run")) (Some (py "_p~iF~ps|U")).

Definition surrogate_done : World * pyres (list Entry) :=
  process_route nfkd_latin1 (py "routes") no_detail always_stores
    surrogate_name empty_world [].


(** A route without a name, distance or elevation gain. *)
Definition unnamed : RawRoute :=
  listed 12 None (Some (py "ride")) (Some (py "_p~iF~ps|U")).

Definition unnamed_done : World * pyres (list Entry) :=
  process_route nfkd_latin1 (py "routes") no_detail always_stores unnamed
    empty_world [].

(** ** Characters of a polyline *)

(** A character that ends a value: [ord(c) - 63 < 0x20]. *)
Definition ends_value (c : codepoint) : bool := ord c - 63 <? 0x20.

(** ** Shape of a slug *)

(** A small letter, a digit, the underscore or the hyphen. *)
Definition slug_char (c : codepoint) : bool :=
  ((48 <=? c) && (c <=? 57) || (97 <=? c) && (c <=? 122)
   || (c =? 95) || (c =? hyphen))%N.

Definition starts_with_hyphen (s : pystr) : bool :=
  match s with
  | c :: _ => (c =? hyphen)%N
  | [] => false
  end.

(** Two hyphens in a row, somewhere in the string. *)
Fixpoint double_hyphen (s : pystr) : bool :=
  match s with
  | c :: s' => (c =? hyphen)%N && starts_with_hyphen s' || double_hyphen s'
  | [] => false
  end.

(** The value that [slugify] truncates: its last line without [[:60]] and
    without the placeholder. *)
Definition slug_body (NFKD : pystr -> pystr) (value : pystr) : pystr :=
  collapse false
    (map lower
       (strip
          (filter (fun c => is_word c || is_space c || (c =? hyphen)%N)
             (filter is_ascii (NFKD value))))).

(** A character of [str(n)] for an integer. *)
Definition digit_or_minus (c : codepoint) : bool :=
  ((48 <=? c) && (c <=? 57) || (c =? 45))%N.

(** ** Polylines of a route *)

(** The two polyline fields of a [map], detail first; none when there is no
    [map]. *)
Definition polyline_fields (m : option PolyMap) : list (option pystr) :=
  match m with
  | None => []
  | Some m => [polyline m; summary_polyline m]
  end.

(** The fields that [main] looks at, in its order: those of the detail
    record when the request succeeded, then those of the listed record. *)
Definition candidates (fetched : FetchResult) (r : RawRoute)
  : list (option pystr) :=
  match fetched with
  | Fetched detail_map => polyline_fields detail_map ++ polyline_fields (r_map r)
  | FetchFailed _ => polyline_fields (r_map r)
  end.

(** The first field that holds a string that is not empty. *)
Fixpoint first_nonempty (l : list (option pystr)) : option pystr :=
  match l with
  | [] => None
  | Some (c :: s) :: _ => Some (c :: s)
  | _ :: l' => first_nonempty l'
  end.

Definition skip_message (r : RawRoute) : pystr :=
  py "Skipping route " ++ str_of_int (r_id r) ++ py " (no polyline)".

Definition warning_message (r : RawRoute) (e : pystr) : pystr :=
  py "Warning: could not fetch detail for route " ++ str_of_int (r_id r)
  ++ py ": " ++ e.

(** ** Entries and files of a run *)

(** The path of the geometry file that goes with an entry. *)
Definition entry_path (ROUTES_DIR : pystr) (e : Entry) : pystr :=
  os_path_join ROUTES_DIR (route_filename (e_id e) (e_slug e)).

Definition is_geojson (file : pystr * Doc) : Prop :=
  exists gj, snd file = GeoJSON gj.

(** The entry [e] is the entry of the listed route [r]. *)
Definition entry_of_route (NFKD : pystr -> pystr) (r : RawRoute) (e : Entry)
  : Prop :=
  e_id e = r_id r
  /\ e_name e = route_name r
  /\ e_slug e = slugify NFKD (route_name r)
  /\ e_type e = r_type r
  /\ e_updated_at e = or_str (r_updated_at r) (r_created_at r)
  /\ e_file e = py "routes/" ++ route_filename (e_id e) (e_slug e).

(** A route with a null distance and a null elevation gain. *)
Definition null_distance : RawRoute :=
  {| r_id := 5; r_name := Some (py "A"); r_distance := Null;
     r_elevation_gain := Null; r_type := None; r_updated_at := None;
     r_created_at := None;
     r_map := Some {| polyline := None;
                      summary_polyline := Some (py "_p~iF~ps|U") |} |}.

(** Two runs on the same listing: one that completes, and one that stops
    at its second route, whose file the file system does not take. *)
Definition three_done : World * pyres unit :=
  main nfkd_latin1 (py "routes") (py "routes/index.json") no_detail
    timestamp always_stores 7 three_routes empty_world.


(** ** Pages of a listing *)

(** The routes that a page brought, none when the request failed. *)
Definition page_data {A : Type}
  (requests_get : Z -> Z -> option (Response (list A)))
  (per_page page : Z) : list A :=
  match api_get (requests_get page per_page) with
  | inr data => data
  | inl _ => []
  end.

(** A service that holds the routes [all] and answers the request for a
    page with that page of them. *)
Definition serve {A : Type} (all : list A) (page per_page : Z)
  : option (Response (list A)) :=
  Some {| status_code := 200;
          json := Some (firstn (Z.to_nat per_page)
                          (skipn (Z.to_nat ((page - 1) * per_page)) all)) |}.

(** The entries that a route adds to the manifest when its file can be
    stored: one, or none when it is skipped or raises. *)
Definition route_entries (NFKD : pystr -> pystr) (ROUTES_DIR : pystr)
  (get_route_detail : Z -> FetchResult) (r : RawRoute) : list Entry :=
  entries_of
    (snd (process_route NFKD ROUTES_DIR get_route_detail always_stores r
            empty_world [])).

(** A listing in which two routes have the same type and the same name,
    and come after a route that sorts behind them. *)
Definition tied_routes : list RawRoute :=
  [ listed 1 (Some (py "B")) (Some (py "run")) (Some (py "_p~iF~ps|U"));
    listed 2 (Some (py "A")) (Some (py "ride")) (Some (py "_p~iF~ps|U"));
    listed 3 (Some (py "A")) (Some (py "ride")) (Some (py "_p~iF~ps|U")) ].

Definition tied_done : World * pyres unit :=
  main nfkd_latin1 (py "routes") (py "routes/index.json") no_detail
    timestamp always_stores 7 tied_routes empty_world.

(** The listing of [three_routes] in another order. *)
Definition three_routes_shuffled : list RawRoute :=
  [ listed 3 (Some (py "Z")) (Some (py "ride")) (Some (py "_p~iF~ps|U"));
    listed 1 (Some (py "B")) (Some (py "run")) (Some (py "_p~iF~ps|U"));
    listed 2 (Some (py "A")) (Some (py "ride")) (Some (py "_p~iF~ps|U")) ].

Definition three_shuffled_done : World * pyres unit :=
  main nfkd_latin1 (py "routes") (py "routes/index.json") no_detail
    timestamp always_stores 7 three_routes_shuffled empty_world.

(** * Properties *)

(** ** The decoder's loop *)

Lemma decode_loop_nil lat lng coords :
  decode_loop [] lat lng coords = Ok coords.
Proof. now simp decode_loop. Qed.

Lemma decode_loop_cons c cs lat lng coords :
  decode_loop (c :: cs) lat lng coords =
  '(rest2, lat', lng', coords') <- decode_step (c :: cs) lat lng coords ;;
  decode_loop rest2 lat' lng' coords'.
Proof.
  simp decode_loop.
  generalize (inspect (decode_step (c :: cs) lat lng coords)).
  intros [[[[[rest' lat'] lng'] coords']|e] H]; pose proof H as E;
    simp decode_loop; rewrite E; reflexivity.
Qed.

Lemma decode_loop_step rest lat lng coords :
  rest <> [] ->
  decode_loop rest lat lng coords =
  '(rest2, lat', lng', coords') <- decode_step rest lat lng coords ;;
  decode_loop rest2 lat' lng' coords'.
Proof.
  destruct rest as [|c cs]; [congruence|]. intros _. apply decode_loop_cons.
Qed.

(** ** Strings that end in the middle of a value *)

Lemma decode_value_raises rest result shift e :
  decode_value rest result shift = Raise e -> e = IndexError.
Proof.
  revert result shift. induction rest as [|c rest IH]; simpl.
  - congruence.
  - intros result shift. destruct (ord c - 63 <? 32); [discriminate|].
    apply IH.
Qed.

Lemma int_truediv_raises n d e :
  int_truediv n d = Raise e -> e = OverflowError.
Proof.
  unfold int_truediv, float_of_int.
  destruct (binary_normalize prec emax n 0 false); cbn [bind]; congruence.
Qed.

(** The decoder raises nothing but [IndexError] and [OverflowError]. *)
Lemma decode_step_raises rest lat lng coords e :
  decode_step rest lat lng coords = Raise e ->
  e = IndexError \/ e = OverflowError.
Proof.
  unfold decode_step.
  destruct (decode_value rest 0 0) as [[r1 rest1]|e1] eqn:D1; cbn [bind].
  2:{ intros [= <-]. left. eapply decode_value_raises; eauto. }
  destruct (decode_value rest1 0 0) as [[r2 rest2]|e2] eqn:D2; cbn [bind].
  2:{ intros [= <-]. left. eapply decode_value_raises; eauto. }
  destruct (int_truediv (lat + signed_delta r1) 100000) as [y|e3] eqn:Y;
    cbn [bind].
  2:{ intros [= <-]. right. eapply int_truediv_raises; eauto. }
  destruct (int_truediv (lng + signed_delta r2) 100000) as [x|e4] eqn:X;
    cbn [bind].
  2:{ intros [= <-]. right. eapply int_truediv_raises; eauto. }
  discriminate.
Qed.

(** A value is never completed by a character that carries the
    continuation flag. *)
Lemma decode_value_flagged_end s c result shift v rest' :
  32 <= ord c - 63 ->
  decode_value (s ++ [c]) result shift = Ok (v, rest') ->
  exists s', rest' = s' ++ [c].
Proof.
  intros Hc. revert result shift.
  induction s as [|a s IH]; intros result shift; simpl.
  - destruct (Z.ltb_spec (ord c - 63) 32); [lia|discriminate].
  - destruct (ord a - 63 <? 32).
    + intros [= _ <-]. eauto.
    + apply IH.
Qed.

Lemma decode_loop_flagged_end n :
  forall s c lat lng coords,
    (length s < n)%nat -> 32 <= ord c - 63 ->
    decode_loop (s ++ [c]) lat lng coords = Raise IndexError
    \/ decode_loop (s ++ [c]) lat lng coords = Raise OverflowError.
Proof.
  induction n as [|n IH]; intros s c lat lng coords Hlen Hc; [lia|].
  rewrite decode_loop_step by (destruct s; discriminate).
  destruct (decode_step (s ++ [c]) lat lng coords)
    as [[[[rest2 lat'] lng'] coords']|e] eqn:S; cbn [bind].
  - pose proof (decode_step_shorter _ _ _ _ _ _ _ _ S) as L.
    unfold decode_step in S.
    destruct (decode_value (s ++ [c]) 0 0) as [[r1 rest1]|e1] eqn:D1;
      [|discriminate].
    cbn [bind] in S.
    destruct (decode_value_flagged_end _ _ _ _ _ _ Hc D1) as [s1 ->].
    destruct (decode_value (s1 ++ [c]) 0 0) as [[r2 rest2']|e2] eqn:D2;
      [|discriminate].
    cbn [bind] in S.
    destruct (decode_value_flagged_end _ _ _ _ _ _ Hc D2) as [s2 ->].
    destruct (int_truediv (lat + signed_delta r1) 100000); [|discriminate].
    destruct (int_truediv (lng + signed_delta r2) 100000); [|discriminate].
    cbn [bind] in S. injection S as <- _ _ _.
    apply IH; [|exact Hc].
    rewrite !length_app in L. simpl in L. lia.
  - destruct (decode_step_raises _ _ _ _ _ S) as [-> | ->]; auto.
Qed.

(** A string whose last character carries the continuation flag is never
    decoded to a path, partial or not: the decoder raises. *)
Lemma truncated_never_decodes s c :
  32 <= ord c - 63 ->
  decode_polyline (s ++ [c]) = Raise IndexError
  \/ decode_polyline (s ++ [c]) = Raise OverflowError.
Proof.
  intros Hc. apply (decode_loop_flagged_end (S (length s))); [lia|exact Hc].
Qed.

(** ** Round trip through the encoder *)

Lemma chunk_split v shift :
  0 <= shift ->
  Z.lor (Z.shiftl (Z.land v 0x1f) shift)
        (Z.shiftl (Z.shiftr v 5) (shift + 5)) = Z.shiftl v shift.
Proof.
  intros Hs. apply Z.bits_inj'. intros n Hn.
  rewrite Z.lor_spec, !Z.shiftl_spec by lia.
  destruct (Z.ltb_spec n shift) as [L|L].
  - rewrite !Z.testbit_neg_r by lia. reflexivity.
  - rewrite Z.land_spec.
    change 31 with (Z.ones 5).
    destruct (Z.ltb_spec (n - shift) 5) as [L5|L5].
    + rewrite Z.ones_spec_low by lia.
      rewrite (Z.testbit_neg_r _ (n - (shift + 5))) by lia.
      now rewrite andb_true_r, orb_false_r.
    + rewrite Z.ones_spec_high by lia.
      rewrite Z.shiftr_spec by lia.
      rewrite andb_false_r. simpl. f_equal. lia.
Qed.

Lemma last_chunk v : 0 <= v < 32 -> Z.land v 0x1f = v.
Proof.
  intros H. change 31 with (Z.ones 5).
  rewrite Z.land_ones by lia. apply Z.mod_small. simpl. lia.
Qed.

Lemma flagged_chunk v :
  let b := Z.lor 0x20 (Z.land v 0x1f) in
  32 <= b /\ Z.land b 0x1f = Z.land v 0x1f.
Proof.
  intros b. subst b. split.
  - assert (H : 0 <= Z.land v 31) by (apply Z.land_nonneg; lia).
    assert (H' : 0 <= Z.lor 32 (Z.land v 31)) by (apply Z.lor_nonneg; lia).
    destruct (Z.lt_ge_cases (Z.lor 32 (Z.land v 31)) 32) as [L|L]; [|lia].
    exfalso.
    assert (T : Z.testbit (Z.lor 32 (Z.land v 31)) 5 = true).
    { rewrite Z.lor_spec. reflexivity. }
    assert (F : Z.testbit (Z.lor 32 (Z.land v 31)) 5 = false).
    { apply (Z.testbit_false _ 5); [lia|].
      change (2 ^ 5) with 32. rewrite Z.div_small by lia. reflexivity. }
    congruence.
  - apply Z.bits_inj'. intros n Hn.
    rewrite !Z.land_spec, Z.lor_spec, Z.land_spec.
    change 31 with (Z.ones 5).
    destruct (Z.ltb_spec n 5) as [L5|L5].
    + rewrite Z.ones_spec_low by lia.
      rewrite !andb_true_r.
      replace (Z.testbit 32 n) with false; [reflexivity|].
      symmetry. change 32 with (2 ^ 5). apply Z.pow2_bits_false. lia.
    + rewrite Z.ones_spec_high by lia. now rewrite !andb_false_r.
Qed.

Lemma decode_encode_chunks v :
  0 <= v ->
  forall rest result shift,
    0 <= shift ->
    decode_value (encode_chunks v ++ rest) result shift =
    Ok (Z.lor result (Z.shiftl v shift), rest).
Proof.
  funelim (encode_chunks v); intros Hv rest result shift Hs.
  - clear Heqcall. rename H into IH.
    cbn [app decode_value].
    destruct (flagged_chunk v) as [Hb Hl].
    unfold ord. rewrite Z2N.id by lia.
    replace (Z.lor 32 (Z.land v 31) + 63 - 63)
      with (Z.lor 32 (Z.land v 31)) by lia.
    destruct (Z.ltb_spec (Z.lor 32 (Z.land v 31)) 32) as [L|_]; [lia|].
    rewrite IH.
    + rewrite Hl, <- Z.lor_assoc, chunk_split by lia. reflexivity.
    + apply Z.shiftr_nonneg. lia.
    + lia.
  - clear Heqcall. cbn [app decode_value].
    unfold ord. rewrite Z2N.id by lia.
    replace (v + 63 - 63) with v by lia.
    destruct (Z.ltb_spec v 32) as [_|L]; [|lia].
    rewrite last_chunk by lia. reflexivity.
Qed.

Lemma fold_sign_nonneg v : 0 <= fold_sign v.
Proof.
  unfold fold_sign. destruct (Z.ltb_spec v 0).
  - unfold Z.lnot. rewrite Z.shiftl_mul_pow2 by lia. lia.
  - apply Z.shiftl_nonneg. lia.
Qed.

Lemma land_1 x : Z.land x 1 = x mod 2.
Proof. apply (Z.land_ones x 1). lia. Qed.

Lemma signed_delta_fold_sign v : signed_delta (fold_sign v) = v.
Proof.
  unfold signed_delta, fold_sign.
  rewrite land_1, !Z.shiftr_div_pow2 by lia.
  destruct (Z.ltb_spec v 0).
  - unfold Z.lnot. rewrite Z.shiftl_mul_pow2 by lia.
    change (2 ^ 1) with 2.
    destruct (Z.eqb_spec (Z.pred (- (v * 2)) mod 2) 0) as [E|E]; simpl;
      Z.to_euclidean_division_equations; lia.
  - rewrite Z.shiftl_mul_pow2 by lia. change (2 ^ 1) with 2.
    destruct (Z.eqb_spec ((v * 2) mod 2) 0) as [E|E]; simpl;
      Z.to_euclidean_division_equations; lia.
Qed.

Lemma decode_encode_value v rest :
  decode_value (encode_value v ++ rest) 0 0 = Ok (fold_sign v, rest).
Proof.
  unfold encode_value.
  rewrite decode_encode_chunks by (auto using fold_sign_nonneg; lia).
  rewrite Z.shiftl_0_r. reflexivity.
Qed.

Lemma encode_chunks_not_nil v : encode_chunks v <> [].
Proof. funelim (encode_chunks v); discriminate. Qed.

Lemma decode_loop_encode_points pts :
  forall prev_lat prev_lng coords,
    decode_loop (encode_points pts prev_lat prev_lng) prev_lat prev_lng coords
    = path <- e5_path pts ;; Ok (coords ++ path).
Proof.
  induction pts as [|[lat lng] pts IH]; intros prev_lat prev_lng coords.
  - simpl. rewrite decode_loop_nil, app_nil_r. reflexivity.
  - cbn [encode_points e5_path].
    rewrite decode_loop_step.
    2:{ unfold encode_value.
        pose proof (encode_chunks_not_nil (fold_sign (lat - prev_lat))).
        destruct (encode_chunks (fold_sign (lat - prev_lat)));
          [congruence|discriminate]. }
    unfold decode_step.
    rewrite decode_encode_value. cbn [bind].
    rewrite decode_encode_value. cbn [bind].
    rewrite !signed_delta_fold_sign.
    replace (prev_lat + (lat - prev_lat)) with lat by lia.
    replace (prev_lng + (lng - prev_lng)) with lng by lia.
    destruct (int_truediv lat 100000) as [y|e]; [|reflexivity].
    destruct (int_truediv lng 100000) as [x|e]; [|reflexivity].
    cbn [bind]. rewrite IH.
    destruct (e5_path pts) as [path|e]; [|reflexivity].
    cbn [bind]. rewrite <- app_assoc. reflexivity.
Qed.

(** The integer half of the round trip: decoding the encoding of a
    sequence of integers gives each integer [k] as the float [k / 1e5], and
    raises when an integer is beyond the range of the floats. *)
Lemma decode_encode_points (pts : list (Z * Z)) :
  decode_polyline (encode_polyline pts) = e5_path pts.
Proof.
  unfold decode_polyline, encode_polyline.
  rewrite decode_loop_encode_points.
  destruct (e5_path pts); reflexivity.
Qed.

(** ** Round trip: the floats

    The decoder returns [k / 1e5] for the stored integer [k]: the integer
    is converted to a float, exactly when it is below 2^53, and divided by
    the float 1e5.  [round(x, 5)] returns the float nearest to the quotient
    of the same integer by 10^5.  Both are the rounding of one quotient,
    taken on two representations of its terms. *)
Module Binary64.

Lemma digits2_pos_size p : digits2_pos p = Pos.size p.
Proof. induction p; simpl; congruence. Qed.

Lemma digits2_pos_log2 p : Zpos (digits2_pos p) = Z.log2 (Zpos p) + 1.
Proof. rewrite digits2_pos_size. destruct p; simpl; lia. Qed.

Lemma iter_xO q d : Zpos (Pos.iter xO q d) = Zpos q * 2 ^ Zpos d.
Proof.
  rewrite (Pos.iter_swap_gen _ _ Zpos xO (Z.mul 2)) by reflexivity.
  change (Pos.iter (Z.mul 2) (Zpos q) d) with (Z.shiftl (Zpos q) (Zpos d)).
  apply Z.shiftl_mul_pow2. lia.
Qed.

Lemma div_eucl_div_mod a b : Z.div_eucl a b = (a / b, a mod b).
Proof. unfold Z.div, Z.modulo. now destruct (Z.div_eucl a b). Qed.

(** Rounding a mantissa of 53 bits within the exponent range changes
    nothing. *)
Lemma binary_round_aux_exact s m e :
  Z.log2 (Zpos m) = 52 -> -1074 <= e <= 971 ->
  binary_round_aux prec emax s (Zpos m) e loc_Exact = S754_finite s m e.
Proof.
  intros Hm He. unfold binary_round_aux, shr_fexp.
  assert (S0 : fexp prec emax (Zdigits2 (Zpos m) + e) - e = 0).
  { unfold fexp, emin, Zdigits2. rewrite digits2_pos_log2, Hm.
    change prec with 53. change emax with 1024. lia. }
  rewrite S0. cbn [shr shr_record_of_loc shr_m loc_of_shr_record
                   round_nearest_even].
  rewrite S0. cbn [shr shr_record_of_loc shr_m].
  change (emax - prec) with 971.
  destruct (Z.leb_spec e 971); [reflexivity|lia].
Qed.

(** An integer below 2^53 converts exactly: the mantissa is the integer
    shifted to 53 bits. *)
Lemma binary_round_exact s q :
  Zpos q < 2 ^ 53 ->
  exists mq eq,
    binary_round prec emax s q 0 = S754_finite s mq eq
    /\ Zpos mq = Zpos q * 2 ^ (- eq)
    /\ Z.log2 (Zpos mq) = 52
    /\ -52 <= eq <= 0.
Proof.
  intros Hq.
  assert (L : 0 <= Z.log2 (Zpos q) < 53).
  { split; [apply Z.log2_nonneg|]. apply Z.log2_lt_pow2; lia. }
  unfold binary_round, shl_align.
  assert (F : fexp prec emax (Zpos (digits2_pos q) + 0) = Z.log2 (Zpos q) - 52).
  { unfold fexp, emin. rewrite digits2_pos_log2.
    change prec with 53. change emax with 1024. lia. }
  rewrite F.
  destruct (Z.log2 (Zpos q) - 52 - 0) as [|d|d] eqn:E; try lia.
  - exists q, 0. rewrite binary_round_aux_exact by lia.
    repeat split; lia.
  - exists (Pos.iter xO q d), (Z.log2 (Zpos q) - 52).
    assert (Hm : Zpos (Pos.iter xO q d) = Zpos q * 2 ^ (- (Z.log2 (Zpos q) - 52))).
    { rewrite iter_xO. f_equal. f_equal. lia. }
    assert (Hl : Z.log2 (Zpos (Pos.iter xO q d)) = 52).
    { rewrite Hm, Z.log2_mul_pow2 by lia. lia. }
    rewrite binary_round_aux_exact by lia.
    repeat split; auto; lia.
Qed.

(** The quotient by 1e5 of an integer in its normal form and as it is. *)
Lemma SFdiv_core_scaled q mq eq :
  Zpos mq = Zpos q * 2 ^ (- eq) -> Z.log2 (Zpos mq) = 52 -> -52 <= eq <= 0 ->
  SFdiv_core_binary prec emax (Zpos mq) eq 6871947673600000 (-36)
  = SFdiv_core_binary prec emax (Zpos q) 0 100000 0.
Proof.
  intros Hm Hl He.
  assert (Lq : Z.log2 (Zpos q) = 52 + eq).
  { rewrite Hm, Z.log2_mul_pow2 in Hl by lia. lia. }
  unfold SFdiv_core_binary, Zdigits2.
  rewrite !digits2_pos_log2, Hl, Lq.
  change (Z.log2 6871947673600000) with 52.
  change (Z.log2 100000) with 16.
  unfold fexp, emin. change prec with 53. change emax with 1024.
  replace (Z.min (Z.max (52 + 1 + eq - (52 + 1 + -36) - 53) (3 - 1024 - 53))
             (eq - -36)) with (eq - 17) by lia.
  replace (Z.min (Z.max (52 + eq + 1 + 0 - (16 + 1 + 0) - 53) (3 - 1024 - 53))
             (0 - 0)) with (eq - 17) by lia.
  replace (eq - -36 - (eq - 17)) with 53 by lia.
  destruct (0 - 0 - (eq - 17)) as [|d|d] eqn:E; try lia.
  rewrite !div_eucl_div_mod.
  assert (A : Z.shiftl (Zpos mq) 53 = Z.shiftl (Zpos q) (Zpos d) * 2 ^ 36).
  { rewrite !Z.shiftl_mul_pow2, Hm by lia.
    rewrite <- !Z.mul_assoc, <- !Z.pow_add_r by lia. do 2 f_equal. lia. }
  rewrite A. change 6871947673600000 with (100000 * 2 ^ 36).
  rewrite Z.div_mul_cancel_r by lia.
  rewrite Z.mul_mod_distr_r by lia.
  f_equal.
  unfold new_location.
  change (Z.even (100000 * 2 ^ 36)) with true.
  change (Z.even 100000) with true. cbn iota.
  unfold new_location_even.
  set (r := Z.shiftl (Zpos q) (Zpos d) mod 100000).
  destruct (Z.eqb_spec r 0) as [->|N]; [reflexivity|].
  destruct (Z.eqb_spec (r * 2 ^ 36) 0) as [Z0|_]; [lia|].
  f_equal.
  destruct (Z.compare_spec (2 * (r * 2 ^ 36)) (100000 * 2 ^ 36)),
    (Z.compare_spec (2 * r) 100000); try reflexivity; lia.
Qed.


(** [n / 1e5] for an integer below 2^53 in absolute value is the float
    nearest to the quotient of the integers. *)
Lemma int_truediv_nearest (s : bool) q :
  Zpos q < 2 ^ 53 ->
  int_truediv (if s then Zneg q else Zpos q) 1e5
  = Ok (nearest_quotient s (Zpos q) 100000).
Proof.
  intros Hq.
  destruct (binary_round_exact s q Hq) as (mq & eq & B & Hm & Hl & He).
  assert (N : binary_normalize prec emax (if s then Zneg q else Zpos q) 0 false
              = S754_finite s mq eq) by (destruct s; exact B).
  unfold int_truediv, float_of_int. rewrite N. cbn [bind]. f_equal.
  rewrite <- (SF2Prim_Prim2SF (SF2Prim (S754_finite s mq eq) / 1e5)).
  rewrite div_spec, Prim2SF_SF2Prim.
  2:{ cbn [valid_binary]. unfold bounded, canonical_mantissa, fexp, emin.
      rewrite digits2_pos_log2, Hl.
      change prec with 53. change emax with 1024.
      apply andb_true_iff. split; [apply Z.eqb_eq|apply Z.leb_le]; lia. }
  change (Prim2SF 1e5) with (S754_finite false 6871947673600000 (-36)).
  unfold nearest_quotient. change (Zpos q =? 0) with false. cbn iota.
  unfold SF64div, SFdiv.
  rewrite (SFdiv_core_scaled q mq eq Hm Hl He), xorb_false_r.
  destruct (SFdiv_core_binary prec emax (Zpos q) 0 100000 0) as [[mz ez] lz].
  reflexivity.
Qed.

(** [==] with a finite float that is not zero is equality. *)
Lemma eqb_finite y x s m e :
  Prim2SF x = S754_finite s m e -> (y =? x)%float = true -> y = x.
Proof.
  intros Hx. rewrite eqb_spec, Hx. unfold SFeqb. intros H.
  rewrite <- (SF2Prim_Prim2SF y), <- (SF2Prim_Prim2SF x), Hx. f_equal.
  destruct (Prim2SF y) as [s'|s'| |s' m' e']; cbn [SFcompare] in H;
    try (destruct s; discriminate); try (destruct s'; discriminate).
  assert (E : e' = e /\ m' = m /\ s' = s).
  { destruct s', s; try discriminate;
      destruct (Z.compare_spec e' e) as [E| |]; try discriminate;
      destruct (Pos.compare_cont Eq m' m) eqn:C; try discriminate;
      apply Pos.compare_eq in C; auto. }
  destruct E as (E1 & E2 & E3). now subst.
Qed.

(** The mantissa of a valid float has at most 53 bits. *)
Lemma valid_mantissa x s m e :
  Prim2SF x = S754_finite s m e -> Zpos m < 2 ^ 53.
Proof.
  intros Hx. pose proof (Prim2SF_valid x) as V. rewrite Hx in V.
  cbn [valid_binary] in V. unfold bounded in V.
  apply andb_true_iff in V. destruct V as [V _].
  unfold canonical_mantissa, fexp, emin in V. apply Z.eqb_eq in V.
  rewrite digits2_pos_log2 in V. revert V.
  change prec with 53. change emax with 1024. intros V.
  apply Z.log2_lt_pow2; lia.
Qed.

End Binary64.

Import Binary64.

Lemma in_range_bound x s m e :
  Prim2SF x = S754_finite s m e -> in_range x ->
  e < 0 /\ Zpos m <= 2 ^ 36 * 2 ^ (- e).
Proof.
  intros Hx. pose proof (valid_mantissa x s m e Hx) as Hm.
  unfold in_range. rewrite leb_spec, abs_spec, Hx. cbn [SFabs].
  change (Prim2SF coordinate_limit)
    with (S754_finite false 4503599627370496 (-16)).
  unfold SFleb. cbn [SFcompare].
  destruct (Z.compare_spec e (-16)) as [->|L|G]; [| |discriminate].
  - intros H. split; [lia|].
    change (2 ^ 36 * 2 ^ (- -16)) with 4503599627370496.
    unfold Z.le. cbn [Z.compare]. unfold Pos.compare.
    destruct (Pos.compare_cont Eq m 4503599627370496); discriminate.
  - intros _. split; [lia|].
    assert (P : 2 ^ 17 <= 2 ^ (- e)) by (apply Z.pow_le_mono_r; lia).
    revert Hm P. generalize (2 ^ (- e)).
    change (2 ^ 53) with 9007199254740992.
    change (2 ^ 36) with 68719476736. change (2 ^ 17) with 131072.
    intros; lia.
Qed.

Lemma round_half_even_shr_bounds n k :
  0 <= n -> 0 < k ->
  n / 2 ^ k <= round_half_even_shr n k <= n / 2 ^ k + 1.
Proof.
  intros Hn Hk. unfold round_half_even_shr.
  rewrite Z.shiftr_div_pow2 by lia.
  destruct (_ || _); lia.
Qed.


(** One coordinate through the encoder and the decoder. *)
Lemma roundtrip_coordinate x :
  five_decimals x -> in_range x ->
  exists k y,
    quantise x = Ok k
    /\ int_truediv k 1e5 = Ok y
    /\ same_number y x
    /\ (x <> (-0)%float -> y = x).
Proof.
  unfold five_decimals, same_number. intros F R.
  destruct (Prim2SF x) as [s|s| |s m e] eqn:Hx.
  - exists 0, 0%float. unfold quantise. rewrite Hx.
    split; [reflexivity|]. split; [vm_compute; reflexivity|].
    split.
    + rewrite eqb_spec, Hx. reflexivity.
    + intros N. rewrite <- (SF2Prim_Prim2SF x), Hx.
      destruct s; [|reflexivity].
      exfalso. apply N. rewrite <- (SF2Prim_Prim2SF x), Hx. reflexivity.
  - exfalso. unfold in_range in R. rewrite leb_spec, abs_spec, Hx in R.
    discriminate.
  - exfalso. rewrite eqb_spec, Hx in F. unfold SFeqb, SFcompare in F.
    destruct (Prim2SF (py_round x 5)); discriminate.
  - destruct (in_range_bound x s m e Hx R) as [He Hm].
    unfold py_round in F. rewrite Hx in F.
    change (323 <? 5) with false in F. change (10 ^ 5) with 100000 in F.
    cbn iota zeta in F.
    unfold quantise. rewrite Hx.
    destruct (Z.leb_spec 0 e) as [|_]; [lia|].
    pose proof (round_half_even_shr_bounds (Zpos m * 100000) (- e)
                  ltac:(lia) ltac:(lia)) as B.
    assert (D : Zpos m * 100000 / 2 ^ (- e) <= 6871947673600000).
    { assert (0 < 2 ^ (- e)) by (apply Z.pow_pos_nonneg; lia).
      apply Z.div_le_upper_bound; [assumption|].
      revert Hm. generalize (2 ^ (- e)). change (2 ^ 36) with 68719476736.
      intros; lia. }
    assert (P : 0 <= Zpos m * 100000 / 2 ^ (- e))
      by (apply Z.div_pos; lia).
    destruct (round_half_even_shr (Zpos m * 100000) (- e)) as [|q|q] eqn:Q;
      [|clear Q|lia].
    + exfalso. unfold nearest_quotient in F. change (0 =? 0) with true in F.
      cbn iota in F. rewrite eqb_spec, Hx, Prim2SF_SF2Prim in F by reflexivity.
      unfold SFeqb, SFcompare in F. destruct s; discriminate.
    + assert (Hq : Zpos q < 2 ^ 53).
      { change (2 ^ 53) with 9007199254740992. lia. }
      exists (if s then - Zpos q else Zpos q),
             (nearest_quotient s (Zpos q) 100000).
      split; [reflexivity|].
      split; [apply (int_truediv_nearest s q Hq)|].
      split; [exact F|]. intros _. exact (eqb_finite _ _ _ _ _ Hx F).
Qed.

Lemma roundtrip_path path :
  coordinates path ->
  exists pts decoded,
    quantise_path path = Ok pts
    /\ e5_path pts = Ok decoded
    /\ same_path decoded path
    /\ (no_negative_zero path -> decoded = path).
Proof.
  unfold coordinates, same_path, no_negative_zero.
  induction path as [|[lat lng] path IH]; intros C.
  - exists [], []. repeat split; auto.
  - inversion C as [|? ? [[F1 R1] [F2 R2]] C']; subst. cbn [fst snd] in *.
    destruct (IH C') as (pts & decoded & Q & E & S & N).
    destruct (roundtrip_coordinate lat F1 R1) as (a & y & Qa & Da & Sa & Na).
    destruct (roundtrip_coordinate lng F2 R2) as (b & x & Qb & Db & Sb & Nb).
    exists ((a, b) :: pts), ((y, x) :: decoded).
    cbn [quantise_path e5_path]. rewrite Qa, Qb, Q, Da, Db, E. cbn [bind].
    split; [reflexivity|]. split; [reflexivity|]. split.
    + constructor; auto.
    + intros Z. inversion Z as [|? ? [Z1 Z2] Z']; subst. cbn [fst snd] in *.
      now rewrite (Na Z1), (Nb Z2), (N Z').
Qed.

(** C3.  Decode round trip: a path whose coordinates are rounded to 5
    decimal places (and are below 2^36 in absolute value) is encoded to a
    string, and that string is decoded to the same path: the same numbers
    in the same order, and the same floats unless a coordinate is -0.0,
    which comes back as 0.0. *)
Theorem decode_encode_roundtrip path :
  coordinates path ->
  exists polyline_str decoded,
    encode_path path = Ok polyline_str
    /\ decode_polyline polyline_str = Ok decoded
    /\ same_path decoded path
    /\ (no_negative_zero path -> decoded = path).
Proof.
  intros C. destruct (roundtrip_path path C) as (pts & decoded & Q & E & S & N).
  exists (encode_polyline pts), decoded.
  unfold encode_path. rewrite Q. cbn [bind].
  rewrite decode_encode_points.
  repeat split; assumption.
Qed.

Local Open Scope float_scope.

(** The three points of the canonical example. *)
Lemma decode_encode_roundtrip_witness :
  exists polyline_str decoded,
    encode_path [(38.5, -120.2); (40.7, -120.95); (43.252, -126.453)]
    = Ok polyline_str
    /\ decode_polyline polyline_str = Ok decoded
    /\ same_path decoded
         [(38.5, -120.2); (40.7, -120.95); (43.252, -126.453)]
    /\ (no_negative_zero
          [(38.5, -120.2); (40.7, -120.95); (43.252, -126.453)] ->
        decoded = [(38.5, -120.2); (40.7, -120.95); (43.252, -126.453)]).
Proof.
  apply (decode_encode_roundtrip
           [(38.5, -120.2); (40.7, -120.95); (43.252, -126.453)]).
  repeat constructor; vm_compute; reflexivity.
Defined.

(** A point at -0.0 comes back at 0.0, which is the same number and
    another float. *)
Lemma negative_zero_roundtrip :
  encode_path [(-0, 0)] = Ok (py "??")
  /\ decode_polyline (py "??") = Ok [(0, 0)]
  /\ same_path [(0, 0)] [(-0, 0)]
  /\ [(0, 0)] <> [(-0, 0)] :> Path.
Proof.
  split; [vm_compute; reflexivity|]. split; [vm_compute; reflexivity|].
  split; [repeat constructor|].
  intros H. apply (f_equal (map (fun p => Prim2SF (fst p)))) in H.
  vm_compute in H. discriminate.
Qed.

Local Close Scope float_scope.

(** ** Concrete decodings *)

(** The encoder on the canonical example: the three points give the
    canonical string, through their integers in units of 1e-5 degree. *)
Lemma encode_polyline_canonical :
  quantise_path [(38.5, -120.2); (40.7, -120.95); (43.252, -126.453)]%float
  = Ok [(3850000, -12020000); (4070000, -12095000); (4325200, -12645300)]
  /\ encode_polyline
       [(3850000, -12020000); (4070000, -12095000); (4325200, -12645300)]
     = canonical
  /\ encode_path [(38.5, -120.2); (40.7, -120.95); (43.252, -126.453)]%float
     = Ok canonical.
Proof. repeat split; vm_compute; reflexivity. Qed.

(** C8.  Decoding the empty string gives the empty path and raises
    nothing. *)
Theorem decode_polyline_empty : decode_polyline [] = Ok [].
Proof. unfold decode_polyline. now rewrite decode_loop_nil. Qed.

Local Open Scope float_scope.

(** C1, as the code has it: the canonical string holds three points, not
    two. *)
Lemma canonical_is_not_two_points :
  decode_polyline canonical <> Ok [(38.5, -120.2); (40.7, -120.95)].
Proof. vm_compute. discriminate. Qed.

(** C1, amended.  The canonical string decodes to three points, with their
    bounding box and its center; the two-point path is the decoding of the
    string's first eighteen characters, and its bounding box and center are
    the ones stated. *)
Theorem canonical_example :
  decode_polyline canonical
  = Ok [(38.5, -120.2); (40.7, -120.95); (43.252, -126.453)]
  /\ bbox_from_coords [(38.5, -120.2); (40.7, -120.95); (43.252, -126.453)]
     = Ok [-126.453; 38.5; -120.2; 43.252]
  /\ center_from_bbox [-126.453; 38.5; -120.2; 43.252]
     = Ok [-123.32650000000001; 40.876000000000005]
  /\ decode_polyline (firstn 18 canonical)
     = Ok [(38.5, -120.2); (40.7, -120.95)]
  /\ bbox_from_coords [(38.5, -120.2); (40.7, -120.95)]
     = Ok [-120.95; 38.5; -120.2; 40.7]
  /\ center_from_bbox [-120.95; 38.5; -120.2; 40.7] = Ok [-120.575; 39.6].
Proof. repeat split; vm_compute; reflexivity. Qed.

Local Close Scope float_scope.

(** ** The order of binary64 values that are not NaN

    [<?] and [<=?] on [float] are specified by [SFcompare] on the decoded
    value.  Away from NaN that comparison is the lexicographic comparison of
    a rank (class and sign, exponent, mantissa), which gives the order
    properties that [min] and [max] rely on. *)
Module FloatOrder.

Import SFOrder.

Lemma lex_cmp_le p q : lex_cmp p q <> Gt <-> lex_le p q.
Proof.
  destruct p as [[a b] c], q as [[a' b'] c']; simpl.
  destruct (Z.compare_spec a a'), (Z.compare_spec b b'),
    (Z.compare_spec c c'); split; intros; try lia; congruence.
Qed.

Lemma lex_cmp_lt p q : lex_cmp p q = Lt <-> lex_lt p q.
Proof.
  destruct p as [[a b] c], q as [[a' b'] c']; simpl.
  destruct (Z.compare_spec a a'), (Z.compare_spec b b'),
    (Z.compare_spec c c'); split; intros; try lia; congruence.
Qed.

Lemma SFcompare_rank f1 f2 :
  not_nan f1 -> not_nan f2 ->
  SFcompare f1 f2 = Some (lex_cmp (rank f1) (rank f2)).
Proof.
  unfold not_nan.
  destruct f1 as [s1|s1| |s1 m1 e1], f2 as [s2|s2| |s2 m2 e2];
    intros N1 N2; try congruence;
    try destruct s1; try destruct s2; try reflexivity.
  - simpl. rewrite Z.compare_opp. rewrite (Z.compare_antisym e1 e2).
    destruct (e1 ?= e2); reflexivity.
Qed.

Lemma SFleb_rank f1 f2 :
  not_nan f1 -> not_nan f2 ->
  (SFleb f1 f2 = true <-> lex_le (rank f1) (rank f2)).
Proof.
  intros N1 N2. unfold SFleb. rewrite (SFcompare_rank _ _ N1 N2).
  rewrite <- lex_cmp_le.
  destruct (lex_cmp (rank f1) (rank f2)); split; congruence.
Qed.

Lemma SFltb_rank f1 f2 :
  not_nan f1 -> not_nan f2 ->
  (SFltb f1 f2 = true <-> lex_lt (rank f1) (rank f2)).
Proof.
  intros N1 N2. unfold SFltb. rewrite (SFcompare_rank _ _ N1 N2).
  rewrite <- lex_cmp_lt.
  destruct (lex_cmp (rank f1) (rank f2)); split; congruence.
Qed.

Lemma is_nan_spec (x : float) :
  PrimFloat.is_nan x = false -> not_nan (Prim2SF x).
Proof.
  unfold PrimFloat.is_nan, not_nan. rewrite eqb_spec. intros H E.
  rewrite E in H. discriminate.
Qed.

Local Ltac to_rank x :=
  let p := fresh "p" in
  let a := fresh "a" in let b := fresh "b" in let c := fresh "c" in
  destruct (rank (Prim2SF x)) as [[a b] c].

Section Order.
Variables x y z : float.
Hypothesis Nx : PrimFloat.is_nan x = false.
Hypothesis Ny : PrimFloat.is_nan y = false.
Hypothesis Nz : PrimFloat.is_nan z = false.

Lemma leb_refl : (x <=? x)%float = true.
Proof.
  rewrite leb_spec. apply SFleb_rank; auto using is_nan_spec.
  to_rank x. simpl. lia.
Qed.

Lemma leb_trans :
  (x <=? y)%float = true -> (y <=? z)%float = true ->
  (x <=? z)%float = true.
Proof.
  rewrite !leb_spec, !SFleb_rank by auto using is_nan_spec.
  to_rank x; to_rank y; to_rank z. simpl. lia.
Qed.

Lemma ltb_leb : (x <? y)%float = true -> (x <=? y)%float = true.
Proof.
  rewrite ltb_spec, leb_spec, SFltb_rank, SFleb_rank
    by auto using is_nan_spec.
  to_rank x; to_rank y. simpl. lia.
Qed.

Lemma not_ltb_leb : (x <? y)%float = false -> (y <=? x)%float = true.
Proof.
  intros H. rewrite leb_spec, SFleb_rank by auto using is_nan_spec.
  assert (N : ~ lex_lt (rank (Prim2SF x)) (rank (Prim2SF y))).
  { rewrite <- SFltb_rank by auto using is_nan_spec.
    rewrite <- ltb_spec. congruence. }
  revert N. to_rank x; to_rank y. simpl. lia.
Qed.
End Order.

End FloatOrder.

(** ** Floats that are numbers

    Rounding never produces NaN: the right shifts and the rounding of
    [binary_round_aux] keep a mantissa that is not negative.  So the
    conversion of an integer and a division by a finite float that is not
    zero give numbers. *)
Module FloatNumbers.

Import SFOrder.

Lemma iter_pos_inv {A} (f : A -> A) (P : A -> Prop) :
  (forall x, P x -> P (f x)) -> forall n x, P x -> P (iter_pos f n x).
Proof.
  intros Hf. induction n as [n IH|n IH|]; intros x Hx; simpl; auto.
Qed.

Lemma shr_1_nonneg mrs : 0 <= shr_m mrs -> 0 <= shr_m (shr_1 mrs).
Proof.
  destruct mrs as [m r s]. simpl.
  destruct m as [|[p|p|]|p]; simpl; lia.
Qed.

Lemma shr_fexp_nonneg m e l :
  0 <= m -> 0 <= shr_m (fst (shr_fexp prec emax m e l)).
Proof.
  intros Hm. unfold shr_fexp, shr.
  assert (H0 : 0 <= shr_m (shr_record_of_loc m l))
    by (destruct l as [|[]]; exact Hm).
  destruct (fexp prec emax (Zdigits2 m + e) - e); simpl; auto.
  apply (iter_pos_inv shr_1 (fun mrs => 0 <= shr_m mrs)); auto.
  apply shr_1_nonneg.
Qed.

Lemma round_nearest_even_nonneg m l :
  0 <= m -> 0 <= round_nearest_even m l.
Proof.
  intros Hm. destruct l as [|[]]; simpl; try lia.
  destruct (Z.even m); lia.
Qed.

Lemma binary_round_aux_not_nan s m e l :
  0 <= m -> not_nan (binary_round_aux prec emax s m e l).
Proof.
  intros Hm. unfold binary_round_aux.
  pose proof (shr_fexp_nonneg m e l Hm) as H1.
  destruct (shr_fexp prec emax m e l) as [mrs' e']. simpl in H1.
  pose proof (shr_fexp_nonneg _ e' loc_Exact
                (round_nearest_even_nonneg _ (loc_of_shr_record mrs') H1))
    as H2.
  destruct (shr_fexp prec emax
              (round_nearest_even (shr_m mrs') (loc_of_shr_record mrs'))
              e' loc_Exact) as [mrs'' e'']. simpl in H2.
  destruct (shr_m mrs'') as [|p|p]; try discriminate.
  - destruct (e'' <=? emax - prec); discriminate.
  - lia.
Qed.

Lemma binary_round_not_nan s m e : not_nan (binary_round prec emax s m e).
Proof.
  unfold binary_round.
  destruct (shl_align m e _) as [mz ez].
  apply binary_round_aux_not_nan. lia.
Qed.

Lemma binary_normalize_not_nan m e s :
  not_nan (binary_normalize prec emax m e s).
Proof.
  destruct m; simpl; try apply binary_round_not_nan. discriminate.
Qed.

Lemma SFldexp_not_nan f e : not_nan f -> not_nan (SFldexp prec emax f e).
Proof.
  destruct f; simpl; auto. intros _. apply binary_round_not_nan.
Qed.

Lemma SFopp_not_nan f : not_nan f -> not_nan (SFopp f).
Proof. destruct f; simpl; auto; discriminate. Qed.

Lemma SFdiv_not_nan x s m e :
  not_nan x -> not_nan (SFdiv prec emax x (S754_finite s m e)).
Proof.
  destruct x as [sx|sx| |sx mx ex]; simpl; try discriminate; [congruence|].
  intros _. unfold SFdiv_core_binary.
  match goal with |- context [Z.div_eucl ?a ?b] =>
    pose proof (Z_div_mod a b eq_refl) as D;
    assert (Ha : 0 <= a); [|destruct (Z.div_eucl a b) as [q r]] end.
  { destruct (ex - e - _) eqn:E; try lia. apply Z.shiftl_nonneg. lia. }
  apply binary_round_aux_not_nan.
  destruct D as [D1 D2]. nia.
Qed.

Lemma Prim2SF_SF2Prim_not_nan sf :
  not_nan sf -> not_nan (Prim2SF (SF2Prim sf)).
Proof.
  destruct sf as [s|s| |s m e]; intros N.
  - destruct s; vm_compute; discriminate.
  - destruct s; vm_compute; discriminate.
  - congruence.
  - unfold SF2Prim.
    assert (F : not_nan (Prim2SF (Z.ldexp (of_uint63 (Uint63.of_Z (Zpos m))) e))).
    { rewrite Z_ldexp_spec. apply SFldexp_not_nan.
      rewrite of_uint63_spec. apply binary_normalize_not_nan. }
    destruct s; [rewrite opp_spec; apply SFopp_not_nan|]; exact F.
Qed.

Lemma not_nan_is_nan x : not_nan (Prim2SF x) -> PrimFloat.is_nan x = false.
Proof.
  unfold not_nan, Prim2SF. destruct (PrimFloat.is_nan x); congruence.
Qed.

End FloatNumbers.

(** ** Bounding box *)

(** [min] and [max] over an order: [good] singles out the values on which
    [leb] is a total preorder that [ltb] is the strict part of. *)
Section MinMaxSpec.
Context {A : Type} (ltb leb : A -> A -> bool) (good : A -> Prop).
Hypothesis leb_refl : forall x, good x -> leb x x = true.
Hypothesis leb_trans : forall x y z,
  good x -> good y -> good z ->
  leb x y = true -> leb y z = true -> leb x z = true.
Hypothesis ltb_leb : forall x y,
  good x -> good y -> ltb x y = true -> leb x y = true.
Hypothesis not_ltb_leb : forall x y,
  good x -> good y -> ltb x y = false -> leb y x = true.

Lemma fold_min_inv xs :
  forall m, good m -> Forall good xs ->
  let r := fold_left (fun m item => if ltb item m then item else m) xs m in
  good r /\ (r = m \/ In r xs) /\ leb r m = true
  /\ Forall (fun y => leb r y = true) xs.
Proof.
  induction xs as [|y xs IH]; intros m Gm Gxs; simpl.
  - auto.
  - inversion Gxs as [|? ? Gy Gxs']; subst.
    set (m' := if ltb y m then y else m).
    assert (Gm' : good m') by (subst m'; destruct (ltb y m); auto).
    assert (Lm : leb m' m = true).
    { subst m'. destruct (ltb y m) eqn:E; auto. }
    assert (Ly : leb m' y = true).
    { subst m'. destruct (ltb y m) eqn:E; auto. }
    destruct (IH m' Gm' Gxs') as (Gr & Hin & Hle & Hall).
    repeat split.
    + exact Gr.
    + destruct Hin as [->|Hin]; [|auto].
      subst m'. destruct (ltb y m); auto.
    + eapply leb_trans; eauto.
    + constructor; [eapply leb_trans; eauto|exact Hall].
Qed.

Lemma fold_max_inv xs :
  forall m, good m -> Forall good xs ->
  let r := fold_left (fun m item => if ltb m item then item else m) xs m in
  good r /\ (r = m \/ In r xs) /\ leb m r = true
  /\ Forall (fun y => leb y r = true) xs.
Proof.
  induction xs as [|y xs IH]; intros m Gm Gxs; simpl.
  - auto.
  - inversion Gxs as [|? ? Gy Gxs']; subst.
    set (m' := if ltb m y then y else m).
    assert (Gm' : good m') by (subst m'; destruct (ltb m y); auto).
    assert (Lm : leb m m' = true).
    { subst m'. destruct (ltb m y) eqn:E; auto. }
    assert (Ly : leb y m' = true).
    { subst m'. destruct (ltb m y) eqn:E; auto. }
    destruct (IH m' Gm' Gxs') as (Gr & Hin & Hle & Hall).
    repeat split.
    + exact Gr.
    + destruct Hin as [->|Hin]; [|auto].
      subst m'. destruct (ltb m y); auto.
    + eapply leb_trans; eauto.
    + constructor; [eapply leb_trans; eauto|exact Hall].
Qed.

Lemma py_min_spec l :
  l <> [] -> Forall good l ->
  exists m, py_min ltb l = Ok m /\ In m l
            /\ forall y, In y l -> leb m y = true.
Proof.
  destruct l as [|x xs]; [congruence|]. intros _ G.
  inversion G as [|? ? Gx Gxs]; subst.
  destruct (fold_min_inv xs x Gx Gxs) as (_ & Hin & Hle & Hall).
  eexists. split; [reflexivity|]. split.
  - destruct Hin as [->|Hin]; [left|right]; auto.
  - intros y [<-|Hy]; [exact Hle|].
    rewrite Forall_forall in Hall. auto.
Qed.

Lemma py_max_spec l :
  l <> [] -> Forall good l ->
  exists m, py_max ltb l = Ok m /\ In m l
            /\ forall y, In y l -> leb y m = true.
Proof.
  destruct l as [|x xs]; [congruence|]. intros _ G.
  inversion G as [|? ? Gx Gxs]; subst.
  destruct (fold_max_inv xs x Gx Gxs) as (_ & Hin & Hle & Hall).
  eexists. split; [reflexivity|]. split.
  - destruct Hin as [->|Hin]; [left|right]; auto.
  - intros y [<-|Hy]; [exact Hle|].
    rewrite Forall_forall in Hall. auto.
Qed.
End MinMaxSpec.

Lemma float_of_int_SF2Prim n x :
  float_of_int n = Ok x ->
  x = SF2Prim (binary_normalize prec emax n 0 false).
Proof.
  unfold float_of_int.
  destruct (binary_normalize prec emax n 0 false); congruence.
Qed.

Lemma int_truediv_number n d y s m e :
  Prim2SF d = S754_finite s m e ->
  int_truediv n d = Ok y -> is_number y.
Proof.
  intros Hd. unfold int_truediv.
  destruct (float_of_int n) as [x|err] eqn:F; [|discriminate].
  cbn [bind]. intros [= <-].
  apply float_of_int_SF2Prim in F. subst x.
  apply FloatNumbers.not_nan_is_nan. rewrite div_spec, Hd.
  apply FloatNumbers.SFdiv_not_nan.
  apply FloatNumbers.Prim2SF_SF2Prim_not_nan.
  apply FloatNumbers.binary_normalize_not_nan.
Qed.

Lemma decode_loop_numbers n :
  forall rest lat lng coords path,
    (length rest <= n)%nat -> numbers coords ->
    decode_loop rest lat lng coords = Ok path -> numbers path.
Proof.
  induction n as [|n IH]; intros rest lat lng coords path Hlen Hc.
  - destruct rest; [|simpl in Hlen; lia].
    rewrite decode_loop_nil. now intros [= <-].
  - destruct rest as [|c cs].
    + rewrite decode_loop_nil. now intros [= <-].
    + rewrite decode_loop_cons. unfold decode_step.
      destruct (decode_value (c :: cs) 0 0) as [[r1 rest1]|e] eqn:D1;
        [|discriminate].
      cbn [bind].
      destruct (decode_value rest1 0 0) as [[r2 rest2]|e] eqn:D2;
        [|discriminate].
      cbn [bind].
      destruct (int_truediv (lat + signed_delta r1) 100000) as [y|e] eqn:Y;
        [|discriminate].
      cbn [bind].
      destruct (int_truediv (lng + signed_delta r2) 100000) as [x|e] eqn:X;
        [|discriminate].
      cbn [bind].
      apply decode_value_shorter in D1, D2. simpl in Hlen, D1.
      apply IH; [lia|].
      apply Forall_app. split; [exact Hc|].
      constructor; [|constructor]. simpl. split.
      * eapply (int_truediv_number _ 100000); [|exact Y].
        vm_compute. reflexivity.
      * eapply (int_truediv_number _ 100000); [|exact X].
        vm_compute. reflexivity.
Qed.

(** Every coordinate that the decoder returns is a number. *)
Lemma decode_polyline_numbers polyline_str path :
  decode_polyline polyline_str = Ok path -> numbers path.
Proof.
  apply (decode_loop_numbers (length polyline_str)); [lia|constructor].
Qed.

Lemma float_min_spec l :
  l <> [] -> Forall is_number l ->
  exists m, py_min PrimFloat.ltb l = Ok m /\ In m l
            /\ forall y, In y l -> PrimFloat.leb m y = true.
Proof.
  apply (py_min_spec PrimFloat.ltb PrimFloat.leb is_number);
    unfold is_number; intros.
  - now apply FloatOrder.leb_refl.
  - now apply (FloatOrder.leb_trans x y z).
  - now apply FloatOrder.ltb_leb.
  - now apply FloatOrder.not_ltb_leb.
Qed.

Lemma float_max_spec l :
  l <> [] -> Forall is_number l ->
  exists m, py_max PrimFloat.ltb l = Ok m /\ In m l
            /\ forall y, In y l -> PrimFloat.leb y m = true.
Proof.
  apply (py_max_spec PrimFloat.ltb PrimFloat.leb is_number);
    unfold is_number; intros.
  - now apply FloatOrder.leb_refl.
  - now apply (FloatOrder.leb_trans x y z).
  - now apply FloatOrder.ltb_leb.
  - now apply FloatOrder.not_ltb_leb.
Qed.

Lemma bbox_from_coords_bounds (coords : Path) :
  coords <> [] -> numbers coords ->
  exists b, bbox_from_coords coords = Ok b /\ bounding_box coords b.
Proof.
  intros Hne Hnum.
  assert (Nlat : map fst coords <> [])
    by (destruct coords; [congruence|discriminate]).
  assert (Nlng : map snd coords <> [])
    by (destruct coords; [congruence|discriminate]).
  assert (Glat : Forall is_number (map fst coords)).
  { rewrite Forall_map. eapply Forall_impl; [|exact Hnum]. now intros p [? ?]. }
  assert (Glng : Forall is_number (map snd coords)).
  { rewrite Forall_map. eapply Forall_impl; [|exact Hnum]. now intros p [? ?]. }
  destruct (float_min_spec _ Nlng Glng) as (minx & E1 & I1 & L1).
  destruct (float_min_spec _ Nlat Glat) as (miny & E2 & I2 & L2).
  destruct (float_max_spec _ Nlng Glng) as (maxx & E3 & I3 & L3).
  destruct (float_max_spec _ Nlat Glat) as (maxy & E4 & I4 & L4).
  exists [minx; miny; maxx; maxy]. split.
  - unfold bbox_from_coords. rewrite E1, E2, E3, E4. reflexivity.
  - exists minx, miny, maxx, maxy.
    split; [reflexivity|]. split.
    + intros lat lon Hin.
      assert (In lat (map fst coords)) by (apply (in_map fst _ _ Hin)).
      assert (In lon (map snd coords)) by (apply (in_map snd _ _ Hin)).
      auto.
    + apply in_map_iff in I1, I2, I3, I4.
      destruct I1 as (p1 & ? & ?), I2 as (p2 & ? & ?),
        I3 as (p3 & ? & ?), I4 as (p4 & ? & ?).
      repeat split; eauto.
Qed.

(** For the paths that the decoder returns nothing needs to be assumed
    about the coordinates. *)
Lemma bbox_of_decoded polyline_str coords :
  decode_polyline polyline_str = Ok coords -> coords <> [] ->
  exists b, bbox_from_coords coords = Ok b /\ bounding_box coords b.
Proof.
  intros D N. apply bbox_from_coords_bounds; [exact N|].
  apply (decode_polyline_numbers _ _ D).
Qed.

(** C5.  For a path that is not empty and whose coordinates are numbers,
    [bbox_from_coords] returns [minLon; minLat; maxLon; maxLat] that bound
    the longitude and the latitude of every point, and each of the four is
    the coordinate of some point of the path. *)
Theorem bbox_from_coords_correct (coords : Path) :
  coords <> [] ->
  Forall (fun p => is_number (fst p) /\ is_number (snd p)) coords ->
  exists minLon minLat maxLon maxLat,
    bbox_from_coords coords = Ok [minLon; minLat; maxLon; maxLat]
    /\ (forall lat lon, In (lat, lon) coords ->
          PrimFloat.leb minLon lon = true /\ PrimFloat.leb lon maxLon = true
          /\ PrimFloat.leb minLat lat = true
          /\ PrimFloat.leb lat maxLat = true)
    /\ (exists p, In p coords /\ snd p = minLon)
    /\ (exists p, In p coords /\ fst p = minLat)
    /\ (exists p, In p coords /\ snd p = maxLon)
    /\ (exists p, In p coords /\ fst p = maxLat).
Proof.
  intros Hne Hnum.
  destruct (bbox_from_coords_bounds coords Hne Hnum)
    as (b & E & minLon & minLat & maxLon & maxLat & -> & H).
  exists minLon, minLat, maxLon, maxLat. split; [exact E|exact H].
Qed.

(** The bounding box of the first two points of the canonical example. *)
Lemma bbox_from_coords_correct_witness :
  exists minLon minLat maxLon maxLat,
    bbox_from_coords [(38.5, -120.2); (40.7, -120.95)]%float
    = Ok [minLon; minLat; maxLon; maxLat]
    /\ (forall lat lon, In (lat, lon) [(38.5, -120.2); (40.7, -120.95)]%float ->
          PrimFloat.leb minLon lon = true /\ PrimFloat.leb lon maxLon = true
          /\ PrimFloat.leb minLat lat = true
          /\ PrimFloat.leb lat maxLat = true)
    /\ (exists p, In p [(38.5, -120.2); (40.7, -120.95)]%float
                  /\ snd p = minLon)
    /\ (exists p, In p [(38.5, -120.2); (40.7, -120.95)]%float
                  /\ fst p = minLat)
    /\ (exists p, In p [(38.5, -120.2); (40.7, -120.95)]%float
                  /\ snd p = maxLon)
    /\ (exists p, In p [(38.5, -120.2); (40.7, -120.95)]%float
                  /\ fst p = maxLat).
Proof.
  apply (bbox_from_coords_correct [(38.5, -120.2); (40.7, -120.95)]%float).
  - discriminate.
  - repeat constructor; vm_compute; reflexivity.
Defined.

(** ** Slugs *)

Lemma nfkd_latin1_cafe : nfkd_latin1 cafe = cafe_decomposed.
Proof. reflexivity. Qed.

Lemma slugify_length NFKD value : (length (slugify NFKD value) <= 60)%nat.
Proof.
  unfold slugify.
  match goal with |- context [firstn 60 ?v] =>
    pose proof (firstn_le_length 60 v) as L; destruct (firstn 60 v) end.
  - simpl. lia.
  - exact L.
Qed.

(** C4, as the code has it: the apostrophe is removed, it leaves no
    hyphen. *)
Lemma slugify_cafe_has_no_hyphen_for_apostrophe :
  slugify nfkd_latin1 cafe <> py "cafe-de-l-ete".
Proof. vm_compute. discriminate. Qed.

(** C4, amended.  With a normalizer that decomposes "Café de l'Été!" as
    Unicode does and maps the empty string to itself, [slugify] of that
    name is "cafe-de-lete", [slugify] of the empty string is "route", and
    no slug is longer than 60 characters. *)
Theorem slugify_examples (NFKD : pystr -> pystr) :
  NFKD cafe = cafe_decomposed ->
  NFKD [] = [] ->
  slugify NFKD cafe = py "cafe-de-lete"
  /\ slugify NFKD [] = py "route"
  /\ forall value, (length (slugify NFKD value) <= 60)%nat.
Proof.
  intros Hcafe Hnil. repeat split.
  - unfold slugify. rewrite Hcafe. reflexivity.
  - unfold slugify. rewrite Hnil. reflexivity.
  - intros value. apply slugify_length.
Qed.

(** The examples with the decomposition table of the Latin-1 block. *)
Lemma slugify_examples_witness :
  slugify nfkd_latin1 cafe = py "cafe-de-lete"
  /\ slugify nfkd_latin1 [] = py "route"
  /\ forall value, (length (slugify nfkd_latin1 value) <= 60)%nat.
Proof.
  apply (slugify_examples nfkd_latin1); reflexivity.
Defined.

(** ** Slugs: alphabet, shape, idempotence *)

Local Ltac bools :=
  repeat match goal with
    | H : _ && _ = true |- _ => apply andb_true_iff in H; destruct H
    | H : _ || _ = true |- _ => apply orb_true_iff in H; destruct H
    | H : _ && _ = false |- _ => apply andb_false_iff in H; destruct H
    | H : _ || _ = false |- _ => apply orb_false_iff in H; destruct H
    | H : (_ <=? _)%N = true |- _ => apply N.leb_le in H
    | H : (_ <=? _)%N = false |- _ => apply N.leb_gt in H
    | H : (_ <? _)%N = true |- _ => apply N.ltb_lt in H
    | H : (_ <? _)%N = false |- _ => apply N.ltb_ge in H
    | H : (_ =? _)%N = true |- _ => apply N.eqb_eq in H
    | H : (_ =? _)%N = false |- _ => apply N.eqb_neq in H
    end.

Local Ltac to_props :=
  rewrite ?orb_true_iff, ?andb_true_iff, ?N.leb_le, ?N.ltb_lt, ?N.eqb_eq.

(** What the first substitution keeps, lowered: a slug character or
    whitespace. *)
Lemma lower_kept c :
  is_word c || is_space c || (c =? hyphen)%N = true ->
  slug_char (lower c) || is_space (lower c) = true.
Proof.
  unfold is_word, is_space, lower, slug_char, hyphen. to_props. intros H.
  destruct ((65 <=? c)%N && (c <=? 90)%N) eqn:U;
    [apply andb_true_iff in U|apply andb_false_iff in U];
    rewrite ?N.leb_le, ?N.leb_gt in U; to_props; lia.
Qed.

Lemma firstn_Forall (P : codepoint -> Prop) n :
  forall s, Forall P s -> Forall P (firstn n s).
Proof.
  induction n as [|n IH]; intros s H; [constructor|].
  destruct H; simpl; constructor; auto.
Qed.

Lemma lstrip_Forall (P : codepoint -> Prop) s :
  Forall P s -> Forall P (lstrip s).
Proof.
  induction 1 as [|c s Hc Hs IH]; simpl; [constructor|].
  destruct (is_space c); [exact IH|now constructor].
Qed.

Lemma strip_Forall (P : codepoint -> Prop) s :
  Forall P s -> Forall P (strip s).
Proof.
  intros H. unfold strip.
  apply Forall_rev, lstrip_Forall, Forall_rev, lstrip_Forall, H.
Qed.

Lemma collapse_slug_chars s :
  Forall (fun c => slug_char c || is_space c = true) s ->
  forall in_run, Forall (fun c => slug_char c = true) (collapse in_run s).
Proof.
  induction 1 as [|c s Hc Hs IH]; intros in_run; simpl; [constructor|].
  destruct ((c =? hyphen)%N || is_space c) eqn:E.
  - destruct in_run; [apply IH|]. constructor; [reflexivity|apply IH].
  - constructor; [|apply IH].
    apply orb_false_iff in E. destruct E as [_ E].
    rewrite E, orb_false_r in Hc. exact Hc.
Qed.

Lemma collapse_no_double_hyphen s :
  forall in_run,
    double_hyphen (collapse in_run s) = false
    /\ (in_run = true -> starts_with_hyphen (collapse in_run s) = false).
Proof.
  induction s as [|c s IH]; intros in_run; simpl; [auto|].
  destruct ((c =? hyphen)%N || is_space c) eqn:E.
  - destruct in_run.
    + apply IH.
    + destruct (IH true) as [D S]. split; [|discriminate].
      cbn [double_hyphen]. rewrite D, S by reflexivity.
      now rewrite andb_false_r.
  - apply orb_false_iff in E. destruct E as [E _].
    destruct (IH false) as [D _]. split.
    + cbn [double_hyphen]. now rewrite E, D.
    + intros _. exact E.
Qed.

Lemma firstn_no_double_hyphen n :
  forall s, double_hyphen s = false -> double_hyphen (firstn n s) = false.
Proof.
  induction n as [|n IH]; intros [|c s]; simpl; auto.
  intros H. apply orb_false_iff in H. destruct H as [H1 H2].
  rewrite (IH _ H2), orb_false_r.
  destruct (c =? hyphen)%N; [|reflexivity]. simpl in *.
  destruct n, s; simpl in *; auto.
Qed.

Lemma slugify_body NFKD value :
  slugify NFKD value
  = match firstn 60 (slug_body NFKD value) with
    | [] => py "route"
    | v => v
    end.
Proof. reflexivity. Qed.

Lemma slug_body_chars NFKD value :
  Forall (fun c => slug_char c = true) (slug_body NFKD value).
Proof.
  unfold slug_body. apply collapse_slug_chars.
  rewrite Forall_map. apply strip_Forall.
  rewrite Forall_forall. intros c Hc. apply filter_In in Hc.
  apply lower_kept. tauto.
Qed.

Lemma slugify_chars NFKD value :
  Forall (fun c => slug_char c = true) (slugify NFKD value).
Proof.
  rewrite slugify_body.
  pose proof (firstn_Forall _ 60 _ (slug_body_chars NFKD value)) as F.
  destruct (firstn 60 (slug_body NFKD value)); [|exact F].
  repeat constructor.
Qed.

Lemma slugify_no_double_hyphen NFKD value :
  double_hyphen (slugify NFKD value) = false.
Proof.
  rewrite slugify_body.
  pose proof (firstn_no_double_hyphen 60 _
                (proj1 (collapse_no_double_hyphen _ false))
              : double_hyphen (firstn 60 (slug_body NFKD value)) = false) as D.
  destruct (firstn 60 (slug_body NFKD value)); [reflexivity|exact D].
Qed.

Lemma slugify_not_nil NFKD value : slugify NFKD value <> [].
Proof.
  rewrite slugify_body.
  destruct (firstn 60 (slug_body NFKD value)); discriminate.
Qed.

(** X7.  A slug is made of small letters, digits, underscores and hyphens
    only, whatever the name and whatever the normalizer returns. *)
Theorem slugify_alphabet (NFKD : pystr -> pystr) (value : pystr) :
  Forall (fun c => slug_char c = true) (slugify NFKD value).
Proof. apply slugify_chars. Qed.

(** X8.  A slug is never empty and never has two hyphens in a row. *)
Theorem slugify_shape (NFKD : pystr -> pystr) (value : pystr) :
  slugify NFKD value <> []
  /\ double_hyphen (slugify NFKD value) = false.
Proof.
  split; [apply slugify_not_nil|apply slugify_no_double_hyphen].
Qed.

Lemma filter_all (f : codepoint -> bool) s :
  Forall (fun c => f c = true) s -> filter f s = s.
Proof.
  induction 1 as [|c s Hc Hs IH]; simpl; [reflexivity|].
  now rewrite Hc, IH.
Qed.

Lemma slug_char_facts c :
  slug_char c = true ->
  is_ascii c = true
  /\ is_word c || is_space c || (c =? hyphen)%N = true
  /\ is_space c = false
  /\ lower c = c.
Proof.
  unfold slug_char, is_ascii, is_word, is_space, lower, hyphen.
  to_props. intros H. repeat split.
  - lia.
  - to_props. lia.
  - apply not_true_iff_false. to_props. lia.
  - destruct ((65 <=? c)%N && (c <=? 90)%N) eqn:U; [|reflexivity].
    apply andb_true_iff in U. rewrite !N.leb_le in U. lia.
Qed.

Lemma lstrip_no_space s :
  Forall (fun c => is_space c = false) s -> lstrip s = s.
Proof. destruct 1 as [|c s Hc Hs]; simpl; [reflexivity|now rewrite Hc]. Qed.

Lemma strip_no_space s :
  Forall (fun c => is_space c = false) s -> strip s = s.
Proof.
  intros H. unfold strip.
  rewrite (lstrip_no_space s H).
  rewrite (lstrip_no_space (rev s)) by now apply Forall_rev.
  apply rev_involutive.
Qed.

Lemma collapse_fixed s :
  Forall (fun c => slug_char c = true) s ->
  double_hyphen s = false ->
  forall in_run,
    (in_run = true -> starts_with_hyphen s = false) ->
    collapse in_run s = s.
Proof.
  induction 1 as [|c s Hc Hs IH]; intros D in_run Hrun; [reflexivity|].
  cbn [double_hyphen] in D. apply orb_false_iff in D. destruct D as [D1 D2].
  destruct (slug_char_facts c Hc) as (_ & _ & Sp & _).
  cbn [collapse]. rewrite Sp, orb_false_r.
  destruct (c =? hyphen)%N eqn:E.
  - destruct in_run.
    + specialize (Hrun eq_refl). simpl in Hrun. congruence.
    + f_equal; [now apply N.eqb_eq in E|].
      apply IH; [exact D2|]. intros _. exact D1.
  - f_equal. apply IH; [exact D2|discriminate].
Qed.

(** A string that has the shape of a slug and that the normalizer leaves
    alone is its own slug. *)
Lemma slugify_fixed NFKD u :
  NFKD u = u ->
  Forall (fun c => slug_char c = true) u ->
  double_hyphen u = false ->
  u <> [] -> (length u <= 60)%nat ->
  slugify NFKD u = u.
Proof.
  intros Hn Hc Hd Hne Hlen. unfold slugify. rewrite Hn.
  assert (A : Forall (fun c => is_ascii c = true) u).
  { eapply Forall_impl; [|exact Hc]. intros c H.
    apply (slug_char_facts c H). }
  assert (K : Forall (fun c =>
                is_word c || is_space c || (c =? hyphen)%N = true) u).
  { eapply Forall_impl; [|exact Hc]. intros c H.
    apply (slug_char_facts c H). }
  assert (S : Forall (fun c => is_space c = false) u).
  { eapply Forall_impl; [|exact Hc]. intros c H.
    apply (slug_char_facts c H). }
  rewrite (filter_all _ _ A), (filter_all _ _ K), (strip_no_space _ S).
  assert (L : map lower u = u).
  { clear -Hc. induction Hc as [|c s H Hs IH]; simpl; [reflexivity|].
    rewrite IH. f_equal. apply (slug_char_facts c H). }
  rewrite L, (collapse_fixed _ Hc Hd) by discriminate.
  rewrite firstn_all2 by exact Hlen.
  destruct u; [congruence|reflexivity].
Qed.

(** X9.  [slugify] is idempotent: when the normalizer leaves a slug alone
    (as NFKD leaves every ASCII string), the slug of the slug is the slug
    itself. *)
Theorem slugify_idempotent (NFKD : pystr -> pystr) (value : pystr) :
  NFKD (slugify NFKD value) = slugify NFKD value ->
  slugify NFKD (slugify NFKD value) = slugify NFKD value.
Proof.
  intros H. apply slugify_fixed.
  - exact H.
  - apply slugify_chars.
  - apply slugify_no_double_hyphen.
  - apply slugify_not_nil.
  - apply slugify_length.
Qed.

Lemma slugify_idempotent_witness :
  slugify nfkd_latin1 (slugify nfkd_latin1 cafe) = slugify nfkd_latin1 cafe.
Proof.
  apply (slugify_idempotent nfkd_latin1 cafe). reflexivity.
Defined.

(** ** Order of strings and of sort keys *)

Lemma str_ltb_spec a b : str_ltb a b = true <-> str_lt a b.
Proof.
  revert b. induction a as [|x a IH]; intros [|y b]; simpl.
  - split; [discriminate|inversion 1].
  - split; [constructor|reflexivity].
  - split; [discriminate|inversion 1].
  - destruct (N.ltb_spec x y) as [L|L].
    + split; [intros _; now constructor|reflexivity].
    + destruct (N.ltb_spec y x) as [L'|L'].
      * split; [discriminate|]. inversion 1; subst; lia.
      * assert (x = y) by lia. subst y. rewrite IH.
        split; [now constructor|]. inversion 1; subst; [lia|assumption].
Qed.

Lemma str_eqb_spec a b : str_eqb a b = true <-> a = b.
Proof.
  revert b. induction a as [|x a IH]; intros [|y b]; simpl;
    try (split; [discriminate|congruence]); [tauto|].
  rewrite andb_true_iff, N.eqb_eq, IH. split.
  - intros [-> ->]. reflexivity.
  - intros [= -> ->]. auto.
Qed.

Lemma str_lt_irrefl a : ~ str_lt a a.
Proof.
  induction a as [|x a IH]; inversion 1; subst; [lia|auto].
Qed.

Lemma str_lt_trans a b c : str_lt a b -> str_lt b c -> str_lt a c.
Proof.
  intros H. revert c. induction H; intros c' H'; inversion H'; subst.
  - constructor.
  - constructor.
  - apply str_lt_head. lia.
  - now apply str_lt_head.
  - now apply str_lt_head.
  - apply str_lt_tail. auto.
Qed.

Lemma str_lt_total a b : str_lt a b \/ a = b \/ str_lt b a.
Proof.
  revert b. induction a as [|x a IH]; intros [|y b].
  - auto.
  - left. constructor.
  - right. right. constructor.
  - destruct (N.lt_trichotomy x y) as [L|[->|L]].
    + left. now constructor.
    + destruct (IH b) as [H|[->|H]].
      * left. now apply str_lt_tail.
      * auto.
      * right. right. now apply str_lt_tail.
    + right. right. now constructor.
Qed.

Lemma pair_ltb_spec p q : pair_ltb p q = true <-> key_lt p q.
Proof.
  unfold pair_ltb, key_lt.
  destruct (str_eqb (fst p) (fst q)) eqn:E.
  - apply str_eqb_spec in E. rewrite str_ltb_spec. split; [auto|].
    intros [H|[_ H]]; [|exact H].
    rewrite E in H. now apply str_lt_irrefl in H.
  - rewrite str_ltb_spec. split; [auto|].
    intros [H|[H _]]; [exact H|].
    apply str_eqb_spec in H. congruence.
Qed.

Lemma key_lt_trans p q r : key_lt p q -> key_lt q r -> key_lt p r.
Proof.
  unfold key_lt. intros [H1|[E1 H1]] [H2|[E2 H2]].
  - left. eapply str_lt_trans; eauto.
  - left. now rewrite <- E2.
  - left. now rewrite E1.
  - right. split; [congruence|]. eapply str_lt_trans; eauto.
Qed.

Lemma key_lt_asym p q : key_lt p q -> ~ key_lt q p.
Proof.
  intros H H'. pose proof (key_lt_trans _ _ _ H H') as [C|[_ C]];
    now apply str_lt_irrefl in C.
Qed.

Lemma key_le_trans p q r : key_le p q -> key_le q r -> key_le p r.
Proof.
  unfold key_le. intros [->|H1] [->|H2]; auto.
  right. eapply key_lt_trans; eauto.
Qed.

Lemma not_pair_ltb_key_le p q : pair_ltb p q = false -> key_le q p.
Proof.
  intros H.
  assert (N : ~ key_lt p q) by (rewrite <- pair_ltb_spec; congruence).
  destruct p as [t n], q as [t' n']. unfold key_le, key_lt in *. simpl in *.
  destruct (str_lt_total t t') as [L|[->|L]]; [tauto| |auto].
  destruct (str_lt_total n n') as [L|[->|L]]; [tauto|auto|auto].
Qed.

(** ** The stable sort *)

Section SortSpec.
Context {A K : Type} (ltb : K -> K -> bool) (key : A -> K).
Context (le : K -> K -> Prop).
Hypothesis le_trans : forall x y z, le x y -> le y z -> le x z.
Hypothesis ltb_le : forall x y, ltb x y = true -> le x y.
Hypothesis not_ltb_le : forall x y, ltb x y = false -> le y x.

Let le_key (a b : A) : Prop := le (key a) (key b).

Lemma insert_by_key_perm x l :
  Permutation (x :: l) (insert_by_key ltb key x l).
Proof.
  induction l as [|y l IH]; simpl.
  - reflexivity.
  - destruct (ltb (key y) (key x)).
    + rewrite perm_swap. now constructor.
    + reflexivity.
Qed.

Lemma sort_by_key_perm l : Permutation l (sort_by_key ltb key l).
Proof.
  induction l as [|x l IH]; simpl.
  - constructor.
  - rewrite <- insert_by_key_perm. now constructor.
Qed.

Lemma insert_by_key_sorted x l :
  StronglySorted le_key l ->
  StronglySorted le_key (insert_by_key ltb key x l).
Proof.
  induction 1 as [|y l Hs IH Hy]; simpl.
  - repeat constructor.
  - destruct (ltb (key y) (key x)) eqn:E.
    + constructor; [exact IH|].
      rewrite <- (insert_by_key_perm x l).
      constructor; [apply ltb_le; exact E|exact Hy].
    + assert (Lxy : le_key x y) by (apply not_ltb_le; exact E).
      constructor; [now constructor|].
      constructor; [exact Lxy|].
      eapply Forall_impl; [|exact Hy].
      intros z Hz. eapply le_trans; eauto.
Qed.

Lemma sort_by_key_sorted l : StronglySorted le_key (sort_by_key ltb key l).
Proof.
  induction l as [|x l IH]; simpl.
  - constructor.
  - now apply insert_by_key_sorted.
Qed.

(** Stability: items that have the same key keep their order. *)
Context (eqb : K -> K -> bool).
Hypothesis ltb_eqb : forall x y k,
  eqb x k = true -> eqb y k = true -> ltb x y = false.

Lemma insert_by_key_stable k x l :
  filter (fun a => eqb (key a) k) (insert_by_key ltb key x l)
  = filter (fun a => eqb (key a) k) (x :: l).
Proof.
  induction l as [|y l IH]; [reflexivity|].
  cbn [insert_by_key].
  destruct (ltb (key y) (key x)) eqn:E; [|reflexivity].
  cbn [filter] in *. rewrite IH.
  destruct (eqb (key y) k) eqn:Ey, (eqb (key x) k) eqn:Ex; try reflexivity.
  rewrite (ltb_eqb _ _ _ Ey Ex) in E. discriminate.
Qed.

Lemma sort_by_key_stable k l :
  filter (fun a => eqb (key a) k) (sort_by_key ltb key l)
  = filter (fun a => eqb (key a) k) l.
Proof.
  induction l as [|x l IH]; [reflexivity|].
  cbn [sort_by_key fold_right]. fold (sort_by_key ltb key l).
  rewrite insert_by_key_stable. cbn [filter]. now rewrite IH.
Qed.
End SortSpec.

Lemma pair_eqb_spec p q : pair_eqb p q = true <-> p = q.
Proof.
  unfold pair_eqb. rewrite andb_true_iff, !str_eqb_spec.
  destruct p, q; simpl. split; [intros [-> ->]|intros [= -> ->]]; auto.
Qed.

(** Entries with the same (type, name) stay in the order of the loop. *)
Lemma sort_entries_stable k entries :
  filter (fun e => pair_eqb (sort_key e) k)
    (sort_by_key pair_ltb sort_key entries)
  = filter (fun e => pair_eqb (sort_key e) k) entries.
Proof.
  apply sort_by_key_stable. intros x y k' Hx Hy.
  apply pair_eqb_spec in Hx, Hy. subst.
  destruct (pair_ltb k' k') eqn:E; [|reflexivity].
  apply pair_ltb_spec in E. exfalso. exact (key_lt_asym _ _ E E).
Qed.

Lemma sort_entries_sorted entries :
  entries_sorted (sort_by_key pair_ltb sort_key entries).
Proof.
  apply (sort_by_key_sorted pair_ltb sort_key key_le).
  - apply key_le_trans.
  - intros x y H. right. now apply pair_ltb_spec.
  - apply not_pair_ltb_key_le.
Qed.

(** ** Writing a file *)

Lemma write_file_ok disk path doc w w' u :
  write_file disk path doc w = (w', Ok u) ->
  disk (written w) path = Stores
  /\ forallb utf8_encodable (doc_strings doc) = true
  /\ written w' = written w ++ [(path, doc)]
  /\ unfinished w' = unfinished w.
Proof.
  unfold write_file. destruct (disk (written w) path); try discriminate.
  destruct (forallb utf8_encodable (doc_strings doc)); [|discriminate].
  intros [= <- _]. auto.
Qed.

Lemma write_file_raises disk path doc w w' e :
  write_file disk path doc w = (w', Raise e) ->
  written w' = written w
  /\ ((e = OSError /\ disk (written w) path = RefusesOpen
       /\ unfinished w' = unfinished w)
      \/ (e = OSError /\ disk (written w) path = RefusesWrite
          /\ unfinished w' = unfinished w ++ [path])
      \/ (e = UnicodeEncodeError
          /\ forallb utf8_encodable (doc_strings doc) = false
          /\ unfinished w' = unfinished w ++ [path])).
Proof.
  unfold write_file. destruct (disk (written w) path).
  - destruct (forallb utf8_encodable (doc_strings doc)); [discriminate|].
    intros [= <- <-]. auto 6.
  - intros [= <- <-]. auto 6.
  - intros [= <- <-]. auto 6.
Qed.

Lemma slugify_encodable NFKD value :
  utf8_encodable (slugify NFKD value) = true.
Proof.
  unfold utf8_encodable. apply forallb_forall. intros c Hc.
  pose proof (slugify_chars NFKD value) as F. rewrite Forall_forall in F.
  specialize (F c Hc). revert F.
  unfold slug_char, is_surrogate, hyphen. to_props. intros F.
  apply negb_true_iff, andb_false_iff. rewrite !N.leb_gt. lia.
Qed.

(** The strings of the file of a packaged route are those of the route and
    the slug, which is ASCII. *)
Lemma packaged_strings NFKD ROUTES_DIR r coords bbox center dm dkm eg :
  forallb utf8_encodable
    (doc_strings
       (GeoJSON
          (snd (fst (packaged NFKD ROUTES_DIR r coords bbox center dm dkm eg)))))
  = forallb utf8_encodable (route_strings r).
Proof.
  unfold packaged, route_strings. cbn. rewrite app_nil_r.
  now rewrite slugify_encodable.
Qed.

(** ** One route *)

Section MainSpec.
Variable NFKD : pystr -> pystr.
Variables ROUTES_DIR INDEX_PATH : pystr.
Variable get_route_detail : Z -> FetchResult.
Variable now : pystr.
Variable disk : Disk.

Local Abbreviation resolve := (resolve_polyline get_route_detail).
Local Abbreviation process := (process_route NFKD ROUTES_DIR get_route_detail disk).
Local Abbreviation loop := (for_routes NFKD ROUTES_DIR get_route_detail disk).
Local Abbreviation pack := (packaged NFKD ROUTES_DIR).
Local Abbreviation run :=
  (main NFKD ROUTES_DIR INDEX_PATH get_route_detail now disk).

Lemma resolve_written r w :
  written (fst (resolve r w)) = written w.
Proof.
  unfold resolve_polyline. destruct (get_route_detail (r_id r)).
  - reflexivity.
  - destruct (map_polyline detail_map) as [[|c s]|]; reflexivity.
Qed.

Lemma resolve_unfinished r w :
  unfinished (fst (resolve r w)) = unfinished w.
Proof.
  unfold resolve_polyline. destruct (get_route_detail (r_id r)).
  - reflexivity.
  - destruct (map_polyline detail_map) as [[|c s]|]; reflexivity.
Qed.

Lemma bbox_from_coords_cons p coords :
  exists minx miny maxx maxy,
    bbox_from_coords (p :: coords) = Ok [minx; miny; maxx; maxy].
Proof. unfold bbox_from_coords. simpl. eauto. Qed.

(** An iteration that does not raise either skips the route, and then
    writes nothing and adds no entry, or packages it. *)
Lemma process_route_ok r w acc w' acc' :
  process r w acc = (w', Ok acc') ->
  (acc' = acc /\ written w' = written w)
  \/ exists mp coords bbox center dm dkm eg,
       snd (resolve r w) = Some mp
       /\ decode_polyline mp = Ok coords /\ coords <> []
       /\ bbox_from_coords coords = Ok bbox
       /\ center_from_bbox bbox = Ok center
       /\ py_float (get_default_zero (r_distance r)) = Ok dm
       /\ km (get_default_zero (r_distance r)) = Ok dkm
       /\ py_float (or_zero (get_default_zero (r_elevation_gain r))) = Ok eg
       /\ let '(path, gj, entry) :=
            pack r coords bbox center dm dkm eg in
          acc' = acc ++ [entry]
          /\ written w' = written w ++ [(path, GeoJSON gj)].
Proof.
  unfold process_route.
  pose proof (resolve_written r w) as Hw.
  destruct (resolve r w) as [w1 mp]. simpl in Hw.
  destruct mp as [[|c s]|].
  - intros [= <- <-]. left. auto.
  - destruct (decode_polyline (c :: s)) as [[|p coords]|e] eqn:D.
    + intros [= <- <-]. left. auto.
    + destruct (bbox_from_coords (p :: coords)) as [bbox|e] eqn:B;
        [|discriminate].
      cbn [bind].
      destruct (center_from_bbox bbox) as [center|e] eqn:C; [|discriminate].
      cbn [bind].
      destruct (py_float (get_default_zero (r_distance r))) as [dm|e] eqn:F;
        [|discriminate].
      cbn [bind].
      destruct (km (get_default_zero (r_distance r))) as [dkm|e] eqn:G;
        [|discriminate].
      cbn [bind].
      destruct (py_float (or_zero (get_default_zero (r_elevation_gain r))))
        as [eg|e] eqn:H; [|discriminate].
      cbn [bind].
      destruct (write_file _ _ _ _) as [w2 [u|e]] eqn:Wr; [|discriminate].
      apply write_file_ok in Wr. destruct Wr as (_ & _ & Wr & _).
      intros [= <- <-]. right.
      exists (c :: s), (p :: coords), bbox, center, dm, dkm, eg.
      repeat split; try assumption; try discriminate.
      simpl. now rewrite Wr, Hw.
    + discriminate.
  - intros [= <- <-]. left. auto.
Qed.

Lemma process_route_ok_unfinished r w acc w' acc' :
  process r w acc = (w', Ok acc') -> unfinished w' = unfinished w.
Proof.
  unfold process_route.
  pose proof (resolve_unfinished r w) as Hu.
  destruct (resolve r w) as [w1 mp]. simpl in Hu.
  destruct mp as [[|c s]|]; try (intros [= <- _]; exact Hu).
  destruct (decode_polyline (c :: s)) as [[|p coords]|e];
    [intros [= <- _]; exact Hu| |discriminate].
  destruct (bind _ _) as [[[[[bbox center] dm] dkm] eg]|e]; [|discriminate].
  destruct (write_file _ _ _ _) as [w2 [u|e]] eqn:Wr; [|discriminate].
  apply write_file_ok in Wr. destruct Wr as (_ & _ & _ & Wr).
  intros [= <- _]. congruence.
Qed.

(** A route that is packaged: the entry and the file, in terms of
    [packaged]. *)
Lemma process_route_packaged r w acc w' acc' :
  process r w acc = (w', Ok acc') -> acc' <> acc ->
  exists coords bbox center dm dkm eg,
    py_float (get_default_zero (r_distance r)) = Ok dm
    /\ km (get_default_zero (r_distance r)) = Ok dkm
    /\ py_float (or_zero (get_default_zero (r_elevation_gain r))) = Ok eg
    /\ acc' = acc ++ [snd (pack r coords bbox center dm dkm eg)]
    /\ written w' =
       written w ++ [(fst (fst (pack r coords bbox center dm dkm eg)),
                      GeoJSON
                        (snd (fst (pack r coords bbox center dm dkm eg))))].
Proof.
  intros H N. apply process_route_ok in H.
  destruct H as [[E _]|H]; [congruence|].
  destruct H as (mp & coords & bbox & center & dm & dkm & eg & H).
  destruct H as (_ & _ & _ & _ & _ & F & G & H & P).
  exists coords, bbox, center, dm, dkm, eg.
  unfold packaged in *. simpl. tauto.
Qed.

(** A route whose polyline decodes to a path that is not empty, whose
    numbers convert and whose file can be stored is packaged. *)
Lemma process_route_packs r w acc mp p coords dm dkm eg :
  snd (resolve r w) = Some mp ->
  decode_polyline mp = Ok (p :: coords) ->
  py_float (get_default_zero (r_distance r)) = Ok dm ->
  km (get_default_zero (r_distance r)) = Ok dkm ->
  py_float (or_zero (get_default_zero (r_elevation_gain r))) = Ok eg ->
  storable NFKD ROUTES_DIR disk r w ->
  exists bbox center w',
    process r w acc
    = (w', Ok (acc ++ [snd (pack r (p :: coords) bbox center dm dkm eg)]))
    /\ written w' =
       written w
       ++ [(fst (fst (pack r (p :: coords) bbox center dm dkm eg)),
            GeoJSON (snd (fst (pack r (p :: coords) bbox center dm dkm eg))))]
    /\ unfinished w' = unfinished w.
Proof.
  intros Hmp Hdec F G H [Sd Se].
  unfold process_route.
  pose proof (resolve_written r w) as Hw.
  pose proof (resolve_unfinished r w) as Hu.
  destruct (resolve r w) as [w1 mp']. simpl in Hmp, Hw, Hu. subst mp'.
  destruct mp as [|c s].
  { unfold decode_polyline in Hdec. rewrite decode_loop_nil in Hdec.
    discriminate. }
  rewrite Hdec.
  destruct (bbox_from_coords_cons p coords) as (a & b & c' & d & B).
  rewrite B. cbn [bind center_from_bbox]. rewrite F, G, H. cbn [bind].
  pose proof (packaged_strings NFKD ROUTES_DIR r (p :: coords) [a; b; c'; d]
                [((a + c') / 2)%float; ((b + d) / 2)%float] dm dkm eg) as Enc.
  rewrite Se in Enc. unfold packaged in Enc. cbn [fst snd] in Enc.
  unfold write_file, polyline_to_geojson_feature.
  unfold route_path in Sd. rewrite Hw, Sd, Enc.
  do 3 eexists. split; [reflexivity|]. cbn [written unfinished].
  rewrite ?Hw, ?Hu. split; reflexivity.
Qed.

(** C9.  A route with no name, or an empty one, that is packaged carries
    the name "Route <id>", the word [Route], a space and the identifier in
    decimal, in the feature's properties and in the manifest entry, and its
    slug, there and in the file name, is the slug of that name. *)
Theorem missing_name_falls_back r w acc w' acc' :
  r_name r = None \/ r_name r = Some [] ->
  process_route NFKD ROUTES_DIR get_route_detail disk r w acc = (w', Ok acc') ->
  acc' <> acc ->
  exists path gj f e,
    written w' = written w ++ [(path, GeoJSON gj)]
    /\ gj_features gj = [f]
    /\ acc' = acc ++ [e]
    /\ p_name (f_properties f) = py "Route " ++ str_of_int (r_id r)
    /\ p_slug (f_properties f)
       = slugify NFKD (py "Route " ++ str_of_int (r_id r))
    /\ e_name e = py "Route " ++ str_of_int (r_id r)
    /\ e_slug e = slugify NFKD (py "Route " ++ str_of_int (r_id r))
    /\ path = os_path_join ROUTES_DIR
                (route_filename (r_id r)
                   (slugify NFKD (py "Route " ++ str_of_int (r_id r)))).
Proof.
  intros Hname H N.
  destruct (process_route_packaged _ _ _ _ _ H N)
    as (coords & bbox & center & dm & dkm & eg & _ & _ & _ & -> & ->).
  assert (E : route_name r = py "Route " ++ str_of_int (r_id r)).
  { unfold route_name, fallback_name. destruct Hname as [-> | ->]; auto. }
  unfold packaged. rewrite E. cbn [fst snd].
  do 4 eexists. repeat split.
Qed.

Lemma converts_km v x :
  py_float (Some v) = Ok x -> exists dkm, km (Some v) = Ok dkm.
Proof.
  unfold km, or_zero. destruct (truthy_num (Some v)).
  - destruct v as [n|y]; cbn [py_float num_truediv].
    + intros E. unfold int_truediv. rewrite E. cbn [bind]. eauto.
    + intros _. cbn [bind]. eauto.
  - intros _. cbn [num_truediv bind]. eauto.
Qed.

Lemma converts_or_zero v x :
  py_float (Some v) = Ok x -> exists eg, py_float (or_zero (Some v)) = Ok eg.
Proof.
  unfold or_zero. destruct (truthy_num (Some v)); [eauto|].
  intros _. cbn [py_float]. eauto.
Qed.

(** C10.  A route whose polyline decodes, whose file can be stored and
    whose distance is usable is packaged whether its [elevation_gain] is a
    number, null or missing: a null or missing [elevation_gain] raises
    nothing and gives [elev_gain_m] 0.0, and a missing [distance] gives
    [distance_m] 0.0 and [distance_km] 0.0, in the feature's properties and
    in the manifest entry alike. *)
Theorem missing_numbers_are_zero r w acc mp p coords :
  snd (resolve_polyline get_route_detail r w) = Some mp ->
  decode_polyline mp = Ok (p :: coords) ->
  distance_ok (r_distance r) ->
  elevation_ok (r_elevation_gain r) ->
  storable NFKD ROUTES_DIR disk r w ->
  exists w' path gj f e,
    process_route NFKD ROUTES_DIR get_route_detail disk r w acc
    = (w', Ok (acc ++ [e]))
    /\ written w' = written w ++ [(path, GeoJSON gj)]
    /\ gj_features gj = [f]
    /\ (r_elevation_gain r = Missing \/ r_elevation_gain r = Null ->
        p_elev_gain_m (f_properties f) = 0%float
        /\ e_elev_gain_m e = 0%float)
    /\ (r_distance r = Missing ->
        p_distance_m (f_properties f) = 0%float
        /\ p_distance_km (f_properties f) = 0%float
        /\ e_distance_m e = 0%float
        /\ e_distance_km e = 0%float).
Proof.
  intros Hmp Hdec Hd He Hs.
  assert (D : exists dm dkm,
             py_float (get_default_zero (r_distance r)) = Ok dm
             /\ km (get_default_zero (r_distance r)) = Ok dkm
             /\ (r_distance r = Missing -> dm = 0%float /\ dkm = 0%float)).
  { destruct (r_distance r) as [| |v]; cbn [distance_ok] in Hd.
    - exists 0%float, 0%float. repeat split; vm_compute; reflexivity.
    - contradiction.
    - destruct Hd as [dm F]. destruct (converts_km _ _ F) as [dkm G].
      exists dm, dkm. repeat split; auto; discriminate. }
  assert (E : exists eg,
             py_float (or_zero (get_default_zero (r_elevation_gain r))) = Ok eg
             /\ (r_elevation_gain r = Missing \/ r_elevation_gain r = Null ->
                 eg = 0%float)).
  { destruct (r_elevation_gain r) as [| |v]; cbn [elevation_ok] in He.
    - exists 0%float. split; [vm_compute|]; reflexivity.
    - exists 0%float. split; [vm_compute|]; reflexivity.
    - destruct He as [x F]. destruct (converts_or_zero _ _ F) as [eg G].
      exists eg. split; [exact G|]. intros [?|?]; discriminate. }
  destruct D as (dm & dkm & F & G & Zd). destruct E as (eg & H & Ze).
  destruct (process_route_packs r w acc mp p coords dm dkm eg
              Hmp Hdec F G H Hs) as (bbox & center & w' & P & W & _).
  unfold packaged in P, W. cbn [fst snd] in P, W.
  do 5 eexists. split; [exact P|]. split; [exact W|].
  split; [reflexivity|]. cbn. split.
  - intros M. now rewrite (Ze M).
  - intros M. destruct (Zd M) as [-> ->]. auto.
Qed.

(** A null [distance] is another matter: [float(None)] raises, and the
    run stops there. *)
Lemma null_distance_raises r w acc mp p coords :
  r_distance r = Null ->
  snd (resolve r w) = Some mp ->
  decode_polyline mp = Ok (p :: coords) ->
  snd (process r w acc) = Raise TypeError.
Proof.
  intros Hd Hmp Hdec. unfold process_route.
  destruct (resolve r w) as [w1 mp']. simpl in Hmp. subst mp'.
  destruct mp as [|c s].
  - unfold decode_polyline in Hdec. rewrite decode_loop_nil in Hdec.
    discriminate.
  - rewrite Hdec, Hd.
    destruct (bbox_from_coords_cons p coords) as (a & b & c' & d & ->).
    reflexivity.
Qed.

(** ** File names *)

(** The manifest entry and the geometry file of a packaged route share the
    file name [strava_route_<id>_<slug>.geojson]; the file is written in
    [ROUTES_DIR], the entry says [routes/]. *)
Lemma file_field_of_packaged r w acc w' acc' :
  process r w acc = (w', Ok acc') -> acc' <> acc ->
  exists filename gj e,
    filename = route_filename (r_id r) (slugify NFKD (route_name r))
    /\ written w' = written w ++ [(os_path_join ROUTES_DIR filename,
                                   GeoJSON gj)]
    /\ acc' = acc ++ [e]
    /\ e_file e = py "routes/" ++ filename.
Proof.
  intros H N.
  destruct (process_route_packaged _ _ _ _ _ H N)
    as (coords & bbox & center & dm & dkm & eg & _ & _ & _ & -> & ->).
  unfold packaged. simpl. do 3 eexists. repeat split.
Qed.

Lemma route_filename_relative route_id slug :
  startswith_sep (route_filename route_id slug) = false.
Proof. reflexivity. Qed.

(** With the default root the two agree. *)
Lemma file_field_default_root route_id slug :
  os_path_join (py "routes") (route_filename route_id slug)
  = py "routes/" ++ route_filename route_id slug.
Proof. reflexivity. Qed.

(** ** The run *)

Lemma for_routes_app pre post w acc :
  loop (pre ++ post) w acc =
  match loop pre w acc with
  | (w1, Ok acc1) => loop post w1 acc1
  | (w1, Raise e) => (w1, Raise e)
  end.
Proof.
  revert w acc. induction pre as [|r pre IH]; intros w acc; simpl.
  - reflexivity.
  - destruct (process r w acc) as [w1 [acc1|e]]; auto.
Qed.

(** C2.  What the run does with a route whose resolved polyline makes the
    decoder read past the end of the string: [decode_polyline] raises
    [IndexError], which is not the empty path; nothing catches it, so the
    iteration raises it, and so does the run, which ends there without a
    file for this route, without the routes after it and without a
    manifest.  The route is not skipped and the run does not continue. *)
Theorem malformed_polyline_aborts athlete pre r post w0 w acc mp :
  for_routes NFKD ROUTES_DIR get_route_detail disk pre
    (print (found_message athlete (pre ++ r :: post)) w0) []
  = (w, Ok acc) ->
  snd (resolve_polyline get_route_detail r w) = Some mp ->
  decode_polyline mp = Raise IndexError ->
  decode_polyline mp <> Ok []
  /\ process_route NFKD ROUTES_DIR get_route_detail disk r w acc
     = (fst (resolve_polyline get_route_detail r w), Raise IndexError)
  /\ main NFKD ROUTES_DIR INDEX_PATH get_route_detail now disk athlete
       (pre ++ r :: post) w0
     = (fst (resolve_polyline get_route_detail r w), Raise IndexError)
  /\ written (fst (resolve_polyline get_route_detail r w)) = written w.
Proof.
  intros Hpre Hmp Hdec.
  assert (P : process r w acc = (fst (resolve r w), Raise IndexError)).
  { unfold process_route.
    destruct (resolve r w) as [w1 mp']. simpl in *. subst mp'.
    destruct mp as [|c s].
    - unfold decode_polyline in Hdec. rewrite decode_loop_nil in Hdec.
      discriminate.
    - rewrite Hdec. reflexivity. }
  repeat split.
  - congruence.
  - exact P.
  - unfold main. fold (found_message athlete (pre ++ r :: post)).
    rewrite for_routes_app, Hpre. cbn [for_routes]. rewrite P. reflexivity.
  - apply resolve_written.
Qed.

(** A run that completes writes the manifest last, at [INDEX_PATH]; its
    routes are the entries of the loop, sorted by key, and [count] is their
    number. *)
Lemma main_ok athlete rs w w' :
  run athlete rs w = (w', Ok tt) ->
  exists w1 entries index,
    loop rs (print (found_message athlete rs) w) [] = (w1, Ok entries)
    /\ written w' = written w1 ++ [(INDEX_PATH, Manifest index)]
    /\ routes index = sort_by_key pair_ltb sort_key entries
    /\ count index = Z.of_nat (length entries)
    /\ athlete_id index = athlete.
Proof.
  unfold main. fold (found_message athlete rs).
  destruct (loop rs (print (found_message athlete rs) w) [])
    as [w1 [entries|e]]; [|discriminate].
  destruct (write_file _ _ _ _) as [w2 [u|e]] eqn:Wr; [|discriminate].
  apply write_file_ok in Wr. destruct Wr as (_ & _ & Wr & _).
  intros [= <-]. do 3 eexists. split; [reflexivity|].
  split; [exact Wr|]. repeat split.
Qed.

Lemma manifest_sorted_general athlete rs w w' :
  run athlete rs w = (w', Ok tt) ->
  exists w1 entries index,
    loop rs (print (found_message athlete rs) w) [] = (w1, Ok entries)
    /\ written w' = written w1 ++ [(INDEX_PATH, Manifest index)]
    /\ Permutation entries (routes index)
    /\ entries_sorted (routes index).
Proof.
  intros H. destruct (main_ok _ _ _ _ H) as (w1 & entries & index & L & W & R & _).
  exists w1, entries, index. rewrite R.
  repeat split; auto using sort_by_key_perm, sort_entries_sorted.
Qed.

End MainSpec.

(** ** Runs on concrete listings *)

(** C6.  The manifest of a run that completes lists the entries of the
    loop sorted ascending by the pair (type, name), lexicographically, a
    missing type counting as the empty string; and the routes run/B, ride/A,
    ride/Z come out as ride/A, ride/Z, run/B. *)
Theorem manifest_sorted :
  (forall NFKD ROUTES_DIR INDEX_PATH get_route_detail now disk athlete rs w
          w',
     main NFKD ROUTES_DIR INDEX_PATH get_route_detail now disk athlete rs w
     = (w', Ok tt) ->
     exists w1 entries index,
       for_routes NFKD ROUTES_DIR get_route_detail disk rs
         (print (found_message athlete rs) w) [] = (w1, Ok entries)
       /\ written w' = written w1 ++ [(INDEX_PATH, Manifest index)]
       /\ Permutation entries (routes index)
       /\ entries_sorted (routes index))
  /\ (forall e,
        sort_key e
        = (match e_type e with Some t => t | None => [] end, e_name e))
  /\ (exists w' index,
        main nfkd_latin1 (py "routes") (py "routes/index.json") no_detail
          timestamp always_stores 7 three_routes empty_world = (w', Ok tt)
        /\ last_manifest w' = Some (py "routes/index.json", index)
        /\ map (fun e => (e_type e, e_name e)) (routes index)
           = [ (Some (py "ride"), py "A"); (Some (py "ride"), py "Z");
               (Some (py "run"), py "B") ]).
Proof.
  split; [|split].
  - intros. eapply manifest_sorted_general; eauto.
  - reflexivity.
  - do 2 eexists. split; [vm_compute; reflexivity|].
    split; vm_compute; reflexivity.
Qed.

(** C7, on a run with the root [out]: the geometry file is written to
    [out/strava_route_1_a.geojson] while the entry's [file] says
    [routes/strava_route_1_a.geojson]. *)
Theorem file_field_ignores_routes_dir :
  exists w' gj index e,
    main nfkd_latin1 (py "out") (py "out/index.json") no_detail timestamp
      always_stores 7
      [listed 1 (Some (py "A")) (Some (py "run")) (Some (py "_p~iF~ps|U"))]
      empty_world = (w', Ok tt)
    /\ written w' = [ (py "out/strava_route_1_a.geojson", GeoJSON gj);
                      (py "out/index.json", Manifest index) ]
    /\ routes index = [e]
    /\ e_file e = py "routes/strava_route_1_a.geojson"
    /\ e_file e <> py "out/strava_route_1_a.geojson".
Proof.
  do 4 eexists. split; [vm_compute; reflexivity|].
  split; [vm_compute; reflexivity|].
  split; [vm_compute; reflexivity|].
  split; [vm_compute; reflexivity|].
  vm_compute. discriminate.
Qed.

(** C2, on a listing whose first route has a polyline cut short: the run
    raises [IndexError]; nothing is written, neither for the second route,
    whose polyline is sound, nor as a manifest, and nothing is printed about
    the first route. *)
Lemma truncated_polyline_stops_the_run :
  main nfkd_latin1 (py "routes") (py "routes/index.json") no_detail
    timestamp always_stores 7 [cut_short; sound] empty_world
  = ({| stdout := [py "Found 2 routes for athlete 7"]; written := [];
        unfinished := [] |},
     Raise IndexError).
Proof. vm_compute. reflexivity. Qed.

(** A listing of three routes, the second with its polyline cut short. *)
Lemma malformed_polyline_aborts_witness :
  decode_polyline (py "_p~iF~ps") <> Ok []
  /\ process_route nfkd_latin1 (py "routes") no_detail always_stores cut_short
       (fst sound_first) (entries_of (snd sound_first))
     = (fst (resolve_polyline no_detail cut_short (fst sound_first)),
        Raise IndexError)
  /\ main nfkd_latin1 (py "routes") (py "routes/index.json") no_detail
       timestamp always_stores 7 ([sound] ++ cut_short :: [sound]) empty_world
     = (fst (resolve_polyline no_detail cut_short (fst sound_first)),
        Raise IndexError)
  /\ written (fst (resolve_polyline no_detail cut_short (fst sound_first)))
     = written (fst sound_first).
Proof.
  apply (malformed_polyline_aborts nfkd_latin1 (py "routes")
           (py "routes/index.json") no_detail timestamp always_stores 7
           [sound] cut_short [sound] empty_world (fst sound_first)
           (entries_of (snd sound_first)) (py "_p~iF~ps")).
  - vm_compute. reflexivity.
  - vm_compute. reflexivity.
  - vm_compute. reflexivity.
Defined.

(** Route 12, without a name: "Route 12", [route-12] and
    [strava_route_12_route-12.geojson]. *)
Lemma missing_name_falls_back_witness :
  exists path gj f e,
    written (fst unnamed_done) = written empty_world ++ [(path, GeoJSON gj)]
    /\ gj_features gj = [f]
    /\ entries_of (snd unnamed_done) = [] ++ [e]
    /\ p_name (f_properties f) = py "Route 12"
    /\ p_slug (f_properties f) = py "route-12"
    /\ e_name e = py "Route 12"
    /\ e_slug e = py "route-12"
    /\ path = py "routes/strava_route_12_route-12.geojson".
Proof.
  apply (missing_name_falls_back nfkd_latin1 (py "routes") no_detail
           always_stores unnamed empty_world [] (fst unnamed_done)
           (entries_of (snd unnamed_done))).
  - left. reflexivity.
  - vm_compute. reflexivity.
  - vm_compute. discriminate.
Defined.

(** Route 8 has a null elevation gain and no distance: it is packaged, with
    0.0 for the three numbers. *)
Lemma missing_numbers_are_zero_witness :
  exists w' path gj f e,
    process_route nfkd_latin1 (py "routes") no_detail always_stores
      no_numbers empty_world [] = (w', Ok [e])
    /\ written w' = [(path, GeoJSON gj)]
    /\ gj_features gj = [f]
    /\ r_elevation_gain no_numbers = Null
    /\ p_elev_gain_m (f_properties f) = 0%float
    /\ e_elev_gain_m e = 0%float
    /\ r_distance no_numbers = Missing
    /\ p_distance_m (f_properties f) = 0%float
    /\ p_distance_km (f_properties f) = 0%float
    /\ e_distance_m e = 0%float
    /\ e_distance_km e = 0%float.
Proof.
  destruct (missing_numbers_are_zero nfkd_latin1 (py "routes") no_detail
              always_stores no_numbers empty_world [] (py "_p~iF~ps|U")
              (38.5, -120.2)%float [])
    as (w' & path & gj & f & e & P & W & F & He & Hd).
  - reflexivity.
  - vm_compute. reflexivity.
  - exact I.
  - exact I.
  - split; reflexivity.
  - exists w', path, gj, f, e.
    destruct (He (or_intror eq_refl)) as [E1 E2].
    destruct (Hd eq_refl) as (D1 & D2 & D3 & D4).
    repeat split; assumption.
Defined.

(** * Further properties *)

(** ** Decoder: exceptions, point count, concatenation *)

Lemma decode_loop_raises n :
  forall rest lat lng coords e,
    (length rest <= n)%nat ->
    decode_loop rest lat lng coords = Raise e ->
    e = IndexError \/ e = OverflowError.
Proof.
  induction n as [|n IH]; intros rest lat lng coords e Hlen.
  - destruct rest; [|simpl in Hlen; lia].
    rewrite decode_loop_nil. discriminate.
  - destruct rest as [|c cs]; [rewrite decode_loop_nil; discriminate|].
    rewrite decode_loop_cons.
    destruct (decode_step (c :: cs) lat lng coords)
      as [[[[rest2 lat'] lng'] coords']|e'] eqn:S; cbn [bind].
    + apply decode_step_shorter in S. simpl in S, Hlen.
      apply IH. lia.
    + intros [= <-]. eapply decode_step_raises; eauto.
Qed.

Lemma decode_polyline_raises polyline_str e :
  decode_polyline polyline_str = Raise e ->
  e = IndexError \/ e = OverflowError.
Proof. apply (decode_loop_raises _ _ _ _ _ _ (le_n _)). Qed.

(** X1.  [decode_polyline] returns a path or raises [IndexError] or
    [OverflowError]; it raises nothing else. *)
Theorem decode_polyline_outcomes polyline_str :
  (exists path, decode_polyline polyline_str = Ok path)
  \/ decode_polyline polyline_str = Raise IndexError
  \/ decode_polyline polyline_str = Raise OverflowError.
Proof.
  destruct (decode_polyline polyline_str) as [path|e] eqn:D.
  - left. eauto.
  - right. destruct (decode_polyline_raises _ _ D) as [-> | ->]; auto.
Qed.

(** X2.  A string whose last character carries the continuation flag
    ([ord(c) - 63 >= 0x20]) is never decoded to a path, not even to the
    points that are complete: the decoder raises. *)
Theorem unfinished_value_raises s c :
  ends_value c = false ->
  decode_polyline (s ++ [c]) = Raise IndexError
  \/ decode_polyline (s ++ [c]) = Raise OverflowError.
Proof.
  unfold ends_value. intros H. apply truncated_never_decodes.
  destruct (Z.ltb_spec (ord c - 63) 32); [discriminate|lia].
Qed.

(** The canonical string without its last character. *)
Lemma unfinished_value_raises_witness :
  decode_polyline (firstn 25 canonical ++ [96%N]) = Raise IndexError
  \/ decode_polyline (firstn 25 canonical ++ [96%N]) = Raise OverflowError.
Proof.
  apply (unfinished_value_raises (firstn 25 canonical) 96%N).
  reflexivity.
Defined.

(** X3.  Every coordinate of a decoded path is a number: the decoder
    returns no NaN. *)
Theorem decoded_coordinates_are_numbers polyline_str path :
  decode_polyline polyline_str = Ok path ->
  Forall (fun p => is_number (fst p) /\ is_number (snd p)) path.
Proof. apply decode_polyline_numbers. Qed.

Lemma decoded_coordinates_are_numbers_witness :
  Forall (fun p => is_number (fst p) /\ is_number (snd p))
    [(38.5, -120.2); (40.7, -120.95); (43.252, -126.453)]%float.
Proof.
  apply (decoded_coordinates_are_numbers canonical).
  vm_compute. reflexivity.
Defined.

Lemma decode_value_ends rest result shift v rest' :
  decode_value rest result shift = Ok (v, rest') ->
  length (filter ends_value rest) = S (length (filter ends_value rest')).
Proof.
  revert result shift. induction rest as [|c rest IH]; intros result shift.
  - discriminate.
  - cbn [decode_value filter]. unfold ends_value at 1.
    destruct (ord c - 63 <? 32).
    + intros [= _ <-]. reflexivity.
    + apply IH.
Qed.

Lemma decode_loop_count n :
  forall rest lat lng coords path,
    (length rest <= n)%nat ->
    decode_loop rest lat lng coords = Ok path ->
    (2 * length path
     = 2 * length coords + length (filter ends_value rest))%nat.
Proof.
  induction n as [|n IH]; intros rest lat lng coords path Hlen.
  - destruct rest; [|simpl in Hlen; lia].
    rewrite decode_loop_nil. intros [= <-]. simpl. lia.
  - destruct rest as [|c cs].
    { rewrite decode_loop_nil. intros [= <-]. simpl. lia. }
    rewrite decode_loop_cons.
    destruct (decode_step (c :: cs) lat lng coords)
      as [[[[rest2 lat'] lng'] coords']|e'] eqn:S; cbn [bind];
      [|discriminate].
    pose proof (decode_step_shorter _ _ _ _ _ _ _ _ S) as L.
    unfold decode_step in S.
    destruct (decode_value (c :: cs) 0 0) as [[r1 rest1]|e1] eqn:D1;
      [|discriminate].
    cbn [bind] in S.
    destruct (decode_value rest1 0 0) as [[r2 rest2']|e2] eqn:D2;
      [|discriminate].
    cbn [bind] in S.
    destruct (int_truediv (lat + signed_delta r1) 100000); [|discriminate].
    destruct (int_truediv (lng + signed_delta r2) 100000); [|discriminate].
    cbn [bind] in S. injection S as <- <- <- <-.
    apply decode_value_ends in D1, D2.
    intros H. apply IH in H; [|simpl in Hlen, L; lia].
    rewrite length_app in H. simpl in H. lia.
Qed.

(** X4.  A decoded path has one point for every two characters that end a
    value ([ord(c) - 63 < 0x20]); so it never has more points than half the
    length of the string. *)
Theorem decoded_point_count polyline_str path :
  decode_polyline polyline_str = Ok path ->
  (2 * length path = length (filter ends_value polyline_str))%nat
  /\ (2 * length path <= length polyline_str)%nat.
Proof.
  intros D. unfold decode_polyline in D.
  apply (decode_loop_count _ _ _ _ _ _ (le_n _)) in D.
  pose proof (filter_length_le ends_value polyline_str) as L.
  cbn [length] in D. lia.
Qed.

Lemma decoded_point_count_witness :
  (2 * length [(38.5, -120.2); (40.7, -120.95); (43.252, -126.453)]%float
   = length (filter ends_value canonical))%nat
  /\ (2 * length [(38.5, -120.2); (40.7, -120.95); (43.252, -126.453)]%float
      <= length canonical)%nat.
Proof.
  apply (decoded_point_count canonical).
  vm_compute. reflexivity.
Defined.

Lemma decode_value_app s t result shift v rest :
  decode_value s result shift = Ok (v, rest) ->
  decode_value (s ++ t) result shift = Ok (v, rest ++ t).
Proof.
  revert result shift. induction s as [|c s IH]; intros result shift.
  - discriminate.
  - cbn [app decode_value]. destruct (ord c - 63 <? 32).
    + intros [= <- <-]. reflexivity.
    + apply IH.
Qed.

Lemma decode_step_app s t lat lng coords rest lat' lng' coords' :
  decode_step s lat lng coords = Ok (rest, lat', lng', coords') ->
  decode_step (s ++ t) lat lng coords = Ok (rest ++ t, lat', lng', coords').
Proof.
  unfold decode_step.
  destruct (decode_value s 0 0) as [[r1 rest1]|e1] eqn:D1; [|discriminate].
  rewrite (decode_value_app _ t _ _ _ _ D1). cbn [bind].
  destruct (decode_value rest1 0 0) as [[r2 rest2]|e2] eqn:D2;
    [|discriminate].
  rewrite (decode_value_app _ t _ _ _ _ D2). cbn [bind].
  destruct (int_truediv (lat + signed_delta r1) 100000); [|discriminate].
  destruct (int_truediv (lng + signed_delta r2) 100000); [|discriminate].
  cbn [bind]. intros [= <- <- <- <-]. reflexivity.
Qed.

(** Decoding a concatenation: after a first part that decodes, the loop
    goes on with the second part from the running sums and the points of
    the first. *)
Lemma decode_loop_app n :
  forall s1 lat lng coords p1,
    (length s1 <= n)%nat ->
    decode_loop s1 lat lng coords = Ok p1 ->
    exists lat' lng',
      forall s2,
        decode_loop (s1 ++ s2) lat lng coords = decode_loop s2 lat' lng' p1.
Proof.
  induction n as [|n IH]; intros s1 lat lng coords p1 Hlen.
  - destruct s1; [|simpl in Hlen; lia].
    rewrite decode_loop_nil. intros [= <-]. exists lat, lng. reflexivity.
  - destruct s1 as [|c cs].
    { rewrite decode_loop_nil. intros [= <-]. exists lat, lng. reflexivity. }
    rewrite decode_loop_cons.
    destruct (decode_step (c :: cs) lat lng coords)
      as [[[[rest2 lat1] lng1] coords1]|e'] eqn:S; cbn [bind];
      [|discriminate].
    intros H.
    pose proof (decode_step_shorter _ _ _ _ _ _ _ _ S) as L.
    destruct (IH rest2 lat1 lng1 coords1 p1) as (lat' & lng' & K);
      [simpl in Hlen, L; lia|exact H|].
    exists lat', lng'. intros s2.
    rewrite decode_loop_step by discriminate.
    rewrite (decode_step_app _ s2 _ _ _ _ _ _ _ S). cbn [bind]. apply K.
Qed.

Lemma decode_loop_extends n :
  forall rest lat lng coords path,
    (length rest <= n)%nat ->
    decode_loop rest lat lng coords = Ok path ->
    exists more, path = coords ++ more.
Proof.
  induction n as [|n IH]; intros rest lat lng coords path Hlen.
  - destruct rest; [|simpl in Hlen; lia].
    rewrite decode_loop_nil. intros [= <-]. exists []. now rewrite app_nil_r.
  - destruct rest as [|c cs].
    { rewrite decode_loop_nil. intros [= <-]. exists [].
      now rewrite app_nil_r. }
    rewrite decode_loop_cons.
    destruct (decode_step (c :: cs) lat lng coords)
      as [[[[rest2 lat1] lng1] coords1]|e'] eqn:S; cbn [bind];
      [|discriminate].
    intros H.
    pose proof (decode_step_shorter _ _ _ _ _ _ _ _ S) as L.
    apply IH in H; [|simpl in Hlen, L; lia].
    destruct H as [more ->].
    unfold decode_step in S.
    destruct (decode_value (c :: cs) 0 0) as [[r1 rest1]|e1]; [|discriminate].
    cbn [bind] in S.
    destruct (decode_value rest1 0 0) as [[r2 rest2']|e2]; [|discriminate].
    cbn [bind] in S.
    destruct (int_truediv (lat + signed_delta r1) 100000) as [y|];
      [|discriminate].
    destruct (int_truediv (lng + signed_delta r2) 100000) as [x|];
      [|discriminate].
    cbn [bind] in S. injection S as _ _ _ <-.
    exists ((y, x) :: more). now rewrite <- app_assoc.
Qed.

(** X5.  When a string decodes and a longer string that starts with it
    decodes too, the path of the longer one starts with the path of the
    shorter one: the points already decoded do not depend on what
    follows. *)
Theorem decoded_prefix s1 s2 p1 p :
  decode_polyline s1 = Ok p1 ->
  decode_polyline (s1 ++ s2) = Ok p ->
  exists more, p = p1 ++ more.
Proof.
  unfold decode_polyline. intros D1 D.
  destruct (decode_loop_app _ _ _ _ _ _ (le_n _) D1) as (lat' & lng' & K).
  rewrite K in D.
  apply (decode_loop_extends _ _ _ _ _ _ (le_n _) D).
Qed.

Lemma decoded_prefix_witness :
  exists more,
    [(38.5, -120.2); (40.7, -120.95); (43.252, -126.453)]%float
    = [(38.5, -120.2); (40.7, -120.95)]%float ++ more.
Proof.
  apply (decoded_prefix (firstn 18 canonical) (skipn 18 canonical)).
  - vm_compute. reflexivity.
  - vm_compute. reflexivity.
Defined.

(** X6.  A latitude without a longitude is an error, not a dropped point:
    a string that decodes, followed by the characters of exactly one more
    value, raises [IndexError]. *)
Theorem latitude_without_longitude s t v p :
  decode_polyline s = Ok p ->
  decode_value t 0 0 = Ok (v, []) ->
  decode_polyline (s ++ t) = Raise IndexError.
Proof.
  unfold decode_polyline. intros D V.
  destruct (decode_loop_app _ _ _ _ _ _ (le_n _) D) as (lat' & lng' & K).
  rewrite K.
  rewrite decode_loop_step by (destruct t; discriminate).
  unfold decode_step. rewrite V. reflexivity.
Qed.

Lemma latitude_without_longitude_witness :
  decode_polyline (firstn 18 canonical ++ py "_mqN") = Raise IndexError.
Proof.
  apply (latitude_without_longitude (firstn 18 canonical) (py "_mqN")
           510400 [(38.5, -120.2); (40.7, -120.95)]%float).
  - vm_compute. reflexivity.
  - vm_compute. reflexivity.
Defined.

(** ** File names *)

Lemma string_of_uint_digits d :
  Forall (fun c => digit_or_minus c = true) (py (NilEmpty.string_of_uint d)).
Proof. induction d; simpl; constructor; auto. Qed.

Lemma str_of_int_digits n :
  Forall (fun c => digit_or_minus c = true) (str_of_int n).
Proof.
  unfold str_of_int, NilZero.string_of_int, NilZero.string_of_uint.
  destruct (Z.to_int n) as [d|d]; destruct d; simpl;
    repeat (constructor; [reflexivity|]);
    try apply string_of_uint_digits; constructor.
Qed.

Lemma py_inj a b : py a = py b -> a = b.
Proof.
  revert b. induction a as [|x a IH]; intros [|y b]; simpl;
    try discriminate; [reflexivity|].
  intros [= H1 H2]. f_equal; [|now apply IH].
  rewrite <- (ascii_N_embedding x), <- (ascii_N_embedding y). now f_equal.
Qed.

Lemma to_int_not_nil n :
  Z.to_int n <> Decimal.Pos Decimal.Nil /\ Z.to_int n <> Decimal.Neg Decimal.Nil.
Proof.
  destruct n as [|p|p]; simpl; split; try discriminate;
    intros [= H]; now apply Unsigned.to_uint_nonnil in H.
Qed.

Lemma str_of_int_inj n m : str_of_int n = str_of_int m -> n = m.
Proof.
  unfold str_of_int. intros H. apply py_inj in H.
  apply DecimalZ.to_int_inj.
  destruct (to_int_not_nil n) as [N1 N2], (to_int_not_nil m) as [M1 M2].
  pose proof (NilZero.isi _ N1 N2) as I1.
  pose proof (NilZero.isi _ M1 M2) as I2.
  rewrite H in I1. congruence.
Qed.

(** Two strings cut at the first occurrence of a character are equal only
    piece by piece. *)
Lemma split_at_first (u : codepoint) a :
  forall a' b b',
    ~ In u a -> ~ In u a' ->
    a ++ u :: b = a' ++ u :: b' -> a = a' /\ b = b'.
Proof.
  induction a as [|x a IH]; intros [|y a'] b b' Ha Ha'; simpl.
  - now intros [= ->].
  - intros [= -> _]. exfalso. apply Ha'. now left.
  - intros [= -> _]. exfalso. apply Ha. now left.
  - intros [= -> H]. apply IH in H.
    + destruct H as [-> ->]. auto.
    + intros I. apply Ha. now right.
    + intros I. apply Ha'. now right.
Qed.

Lemma str_of_int_no_underscore n : ~ In 95%N (str_of_int n).
Proof.
  intros I. pose proof (str_of_int_digits n) as F.
  rewrite Forall_forall in F. apply F in I. discriminate.
Qed.

(** X10.  The file name tells the route: two file names are equal only for
    the same identifier and the same slug, so routes with different
    identifiers never share a file. *)
Theorem route_filename_injective i1 s1 i2 s2 :
  route_filename i1 s1 = route_filename i2 s2 -> i1 = i2 /\ s1 = s2.
Proof.
  unfold route_filename. intros H.
  apply app_inv_head in H.
  change (py "_" ++ s1 ++ py ".geojson")
    with (95%N :: s1 ++ py ".geojson") in H.
  change (py "_" ++ s2 ++ py ".geojson")
    with (95%N :: s2 ++ py ".geojson") in H.
  apply split_at_first in H; auto using str_of_int_no_underscore.
  destruct H as [H1 H2]. split.
  - now apply str_of_int_inj.
  - now apply app_inv_tail in H2.
Qed.

Lemma route_filename_injective_witness :
  12 = 12 /\ py "a-b" = py "a-b".
Proof.
  apply (route_filename_injective 12 (py "a-b") 12 (py "a-b")).
  reflexivity.
Defined.

Lemma route_filename_no_slash NFKD route_id name :
  ~ In slash (route_filename route_id (slugify NFKD name)).
Proof.
  unfold route_filename. rewrite !in_app_iff.
  intros [H|[H|[H|[H|H]]]].
  - simpl in H. repeat (destruct H as [H|H]; [discriminate|]). exact H.
  - pose proof (str_of_int_digits route_id) as F.
    rewrite Forall_forall in F. apply F in H. discriminate.
  - simpl in H. destruct H as [H|[]]. discriminate.
  - pose proof (slugify_chars NFKD name) as F.
    rewrite Forall_forall in F. apply F in H. discriminate.
  - simpl in H. repeat (destruct H as [H|H]; [discriminate|]). exact H.
Qed.

(** X11.  The geometry file of a route is written in [ROUTES_DIR] itself:
    its name has no separator, whatever the route's name is, and the path
    is the root, a separator unless the root is empty or ends with one, and
    the name. *)
Theorem route_file_in_root NFKD ROUTES_DIR route_id name :
  ~ In slash (route_filename route_id (slugify NFKD name))
  /\ os_path_join ROUTES_DIR (route_filename route_id (slugify NFKD name))
     = ROUTES_DIR
       ++ (if match ROUTES_DIR with [] => true | _ => endswith_sep ROUTES_DIR end
           then [] else [slash])
       ++ route_filename route_id (slugify NFKD name).
Proof.
  split; [apply route_filename_no_slash|].
  unfold os_path_join. rewrite route_filename_relative.
  destruct (match ROUTES_DIR with [] => true | _ => endswith_sep ROUTES_DIR end);
    reflexivity.
Qed.

(** ** One route: polyline, skip, exceptions, agreement of the outputs *)

Section RouteSpec.
Variable NFKD : pystr -> pystr.
Variables ROUTES_DIR INDEX_PATH : pystr.
Variable get_route_detail : Z -> FetchResult.
Variable now : pystr.
Variable disk : Disk.

Lemma resolve_first_nonempty r w :
  match first_nonempty (candidates (get_route_detail (r_id r)) r) with
  | Some s => snd (resolve_polyline get_route_detail r w) = Some s
  | None =>
      snd (resolve_polyline get_route_detail r w) = None
      \/ snd (resolve_polyline get_route_detail r w) = Some []
  end.
Proof.
  unfold resolve_polyline, candidates, map_polyline, or_str.
  destruct (get_route_detail (r_id r)) as [e|[[[[|c1 s1]|] [[|c2 s2]|]]|]];
    destruct (r_map r) as [[[[|c3 s3]|] [[|c4 s4]|]]|]; simpl; auto.
Qed.

(** X12.  The polyline of a route is the first string that is not empty
    among: the detail record's [polyline], its [summary_polyline], the
    listed record's [polyline], its [summary_polyline]; after a failed
    detail request, among the listed record's two.  When there is none the
    result is [None] or the empty string. *)
Theorem polyline_precedence r w :
  match first_nonempty (candidates (get_route_detail (r_id r)) r) with
  | Some s => snd (resolve_polyline get_route_detail r w) = Some s
  | None =>
      snd (resolve_polyline get_route_detail r w) = None
      \/ snd (resolve_polyline get_route_detail r w) = Some []
  end.
Proof. apply resolve_first_nonempty. Qed.

(** X13.  A route without a polyline in any of these fields is skipped:
    the iteration prints that it skips the route, writes no file, adds no
    entry and raises nothing. *)
Theorem route_without_polyline_is_skipped r w acc :
  first_nonempty (candidates (get_route_detail (r_id r)) r) = None ->
  process_route NFKD ROUTES_DIR get_route_detail disk r w acc
  = (print (skip_message r) (fst (resolve_polyline get_route_detail r w)),
     Ok acc)
  /\ written (fst (resolve_polyline get_route_detail r w)) = written w.
Proof.
  intros H. pose proof (resolve_first_nonempty r w) as R. rewrite H in R.
  split; [|apply resolve_written].
  unfold process_route.
  destruct (resolve_polyline get_route_detail r w) as [w1 mp]. simpl in *.
  destruct R as [-> | ->]; reflexivity.
Qed.

(** X14.  A failed detail request costs a warning and nothing else: the
    iteration goes on as if the request had returned a record without a
    [map], from the world with the warning printed. *)
Theorem failed_detail_falls_back r w acc e :
  get_route_detail (r_id r) = FetchFailed e ->
  process_route NFKD ROUTES_DIR get_route_detail disk r w acc
  = process_route NFKD ROUTES_DIR (fun _ => Fetched None) disk r
      (print (warning_message r e) w) acc.
Proof.
  intros H. unfold process_route, resolve_polyline. rewrite H. reflexivity.
Qed.

Lemma float_of_int_raises n e :
  float_of_int n = Raise e -> e = OverflowError.
Proof.
  unfold float_of_int.
  destruct (binary_normalize prec emax n 0 false); congruence.
Qed.

Lemma py_float_raises v e :
  py_float v = Raise e ->
  (e = TypeError /\ v = None) \/ e = OverflowError.
Proof.
  destruct v as [[n|x]|]; simpl.
  - intros H. right. eapply float_of_int_raises; eauto.
  - discriminate.
  - intros [= <-]. auto.
Qed.

Lemma or_zero_not_none v : or_zero v <> None.
Proof.
  unfold or_zero. destruct (truthy_num v) eqn:T; [|discriminate].
  destruct v; [discriminate|discriminate T].
Qed.

Lemma km_raises v e : km v = Raise e -> e = OverflowError.
Proof.
  unfold km, num_truediv. pose proof (or_zero_not_none v) as N.
  destruct (or_zero v) as [[n|x]|]; cbn [bind]; [| |congruence].
  - destruct (int_truediv n 1000) eqn:T; cbn [bind]; [discriminate|].
    intros [= <-]. eapply int_truediv_raises; eauto.
  - discriminate.
Qed.

(** What an iteration can raise, and what it then leaves behind. *)
Lemma process_route_raises r w acc w' e :
  process_route NFKD ROUTES_DIR get_route_detail disk r w acc = (w', Raise e) ->
  written w' = written w
  /\ ((unfinished w' = unfinished w
       /\ (e = IndexError \/ e = OverflowError
           \/ (e = TypeError /\ r_distance r = Null)))
      \/ (e = OSError
          /\ disk (written w) (route_path NFKD ROUTES_DIR r) = RefusesOpen
          /\ unfinished w' = unfinished w)
      \/ (e = OSError
          /\ disk (written w) (route_path NFKD ROUTES_DIR r) = RefusesWrite
          /\ unfinished w' = unfinished w ++ [route_path NFKD ROUTES_DIR r])
      \/ (e = UnicodeEncodeError
          /\ forallb utf8_encodable (route_strings r) = false
          /\ unfinished w' = unfinished w ++ [route_path NFKD ROUTES_DIR r])).
Proof.
  unfold process_route.
  pose proof (resolve_written get_route_detail r w) as Hw.
  pose proof (resolve_unfinished get_route_detail r w) as Hu.
  destruct (resolve_polyline get_route_detail r w) as [w1 mp].
  simpl in Hw, Hu.
  destruct mp as [[|c s]|]; try discriminate.
  destruct (decode_polyline (c :: s)) as [[|p coords]|e0] eqn:D.
  - discriminate.
  - destruct (bbox_from_coords_cons p coords) as (a & b & c' & d & ->).
    cbn [bind center_from_bbox].
    destruct (py_float (get_default_zero (r_distance r))) as [dm|e1] eqn:F;
      cbn [bind].
    + destruct (km (get_default_zero (r_distance r))) as [dkm|e2] eqn:K;
        cbn [bind].
      * destruct (py_float (or_zero (get_default_zero (r_elevation_gain r))))
          as [eg|e3] eqn:G; cbn [bind].
        -- pose proof (packaged_strings NFKD ROUTES_DIR r (p :: coords)
                         [a; b; c'; d]
                         [((a + c') / 2)%float; ((b + d) / 2)%float]
                         dm dkm eg) as Enc.
           unfold packaged in Enc. cbn [fst snd] in Enc.
           unfold polyline_to_geojson_feature.
           destruct (write_file _ _ _ _) as [w2 [u|e4]] eqn:Wr;
             [discriminate|].
           intros [= <- <-]. apply write_file_raises in Wr.
           rewrite Enc, Hw, Hu in Wr. destruct Wr as [Ww Wr].
           split; [exact Ww|]. right. exact Wr.
        -- intros [= <- <-]. split; [exact Hw|]. left. split; [exact Hu|].
           destruct (py_float_raises _ _ G) as [[_ N]| ->]; auto.
           now apply or_zero_not_none in N.
      * intros [= <- <-]. split; [exact Hw|]. left. split; [exact Hu|].
        rewrite (km_raises _ _ K). auto.
    + intros [= <- <-]. split; [exact Hw|]. left. split; [exact Hu|].
      destruct (py_float_raises _ _ F) as [[-> N]| ->]; auto.
      right. right. split; [reflexivity|].
      destruct (r_distance r); [discriminate|reflexivity|discriminate].
  - intros [= <- <-]. split; [exact Hw|]. left. split; [exact Hu|].
    destruct (decode_polyline_raises _ _ D) as [-> | ->]; auto.
Qed.

(** X15.  An iteration raises nothing but [IndexError] and [OverflowError]
    (the decoder and the conversions), [TypeError] (only for a null
    [distance]), and [OSError] and [UnicodeEncodeError] (only from writing
    the route's file, the latter only when the route's name, type or
    timestamp holds a surrogate).  An iteration that raises has written no
    document in full; the first three leave nothing behind, a write that
    fails after [open] leaves the route's own file without its document. *)
Theorem iteration_exceptions r w acc w' e :
  process_route NFKD ROUTES_DIR get_route_detail disk r w acc = (w', Raise e) ->
  written w' = written w
  /\ ((unfinished w' = unfinished w
       /\ (e = IndexError \/ e = OverflowError
           \/ (e = TypeError /\ r_distance r = Null)))
      \/ (e = OSError
          /\ disk (written w) (route_path NFKD ROUTES_DIR r) = RefusesOpen
          /\ unfinished w' = unfinished w)
      \/ (e = OSError
          /\ disk (written w) (route_path NFKD ROUTES_DIR r) = RefusesWrite
          /\ unfinished w' = unfinished w ++ [route_path NFKD ROUTES_DIR r])
      \/ (e = UnicodeEncodeError
          /\ forallb utf8_encodable (route_strings r) = false
          /\ unfinished w' = unfinished w ++ [route_path NFKD ROUTES_DIR r])).
Proof. apply process_route_raises. Qed.

(** X16.  A null [distance] stops the run at a route whose polyline
    decodes: [float(distance_m)] raises [TypeError] before anything is
    written for the route, although [km] and the elevation gain accept a
    null. *)
Theorem null_distance_stops_the_run r w acc mp p coords :
  r_distance r = Null ->
  snd (resolve_polyline get_route_detail r w) = Some mp ->
  decode_polyline mp = Ok (p :: coords) ->
  process_route NFKD ROUTES_DIR get_route_detail disk r w acc
  = (fst (resolve_polyline get_route_detail r w), Raise TypeError)
  /\ written (fst (resolve_polyline get_route_detail r w)) = written w
  /\ km (get_default_zero (r_distance r)) = Ok 0%float.
Proof.
  intros Hd Hmp Hdec. split; [|split].
  - unfold process_route.
    destruct (resolve_polyline get_route_detail r w) as [w1 mp'].
    simpl in *. subst mp'.
    destruct mp as [|c s].
    + unfold decode_polyline in Hdec. rewrite decode_loop_nil in Hdec.
      discriminate.
    + rewrite Hdec, Hd.
      destruct (bbox_from_coords_cons p coords) as (a & b & c' & d & ->).
      reflexivity.
  - apply resolve_written.
  - rewrite Hd. vm_compute. reflexivity.
Qed.

(** X17.  The two outputs of a packaged route agree: the file holds one
    feature whose line is the decoded path with each point as
    [lon, lat]; the file's [bbox] is the path's bounding box and the
    entry's; the entry's [center] is the center of that box; and the entry
    repeats the feature's properties. *)
Theorem entry_agrees_with_file r w acc w' acc' :
  process_route NFKD ROUTES_DIR get_route_detail disk r w acc = (w', Ok acc') ->
  acc' <> acc ->
  exists mp coords path gj f e,
    snd (resolve_polyline get_route_detail r w) = Some mp
    /\ decode_polyline mp = Ok coords
    /\ written w' = written w ++ [(path, GeoJSON gj)]
    /\ acc' = acc ++ [e]
    /\ gj_features gj = [f]
    /\ f_coordinates f = map (fun p => [snd p; fst p]) coords
    /\ bbox_from_coords coords = Ok (gj_bbox gj)
    /\ e_bbox e = gj_bbox gj
    /\ center_from_bbox (gj_bbox gj) = Ok (e_center e)
    /\ e_id e = p_id (f_properties f)
    /\ e_name e = p_name (f_properties f)
    /\ e_slug e = p_slug (f_properties f)
    /\ e_type e = p_type (f_properties f)
    /\ e_distance_m e = p_distance_m (f_properties f)
    /\ e_distance_km e = p_distance_km (f_properties f)
    /\ e_elev_gain_m e = p_elev_gain_m (f_properties f)
    /\ e_updated_at e = p_updated_at (f_properties f).
Proof.
  intros H N. apply process_route_ok in H.
  destruct H as [[E _]|H]; [congruence|].
  destruct H as (mp & coords & bbox & center & dm & dkm & eg & H).
  destruct H as (R & D & _ & B & C & _ & _ & _ & P).
  unfold packaged in P. destruct P as [-> ->].
  exists mp, coords. do 4 eexists.
  split; [exact R|]. split; [exact D|]. split; [reflexivity|].
  split; [reflexivity|]. split; [reflexivity|]. simpl.
  split; [|repeat split; assumption].
  apply map_ext. now intros [lat lon].
Qed.

End RouteSpec.

(** Route 4, whose name is a lone surrogate: the file is opened, the
    name cannot be encoded, and the file stays behind without its
    document. *)
Lemma iteration_exceptions_witness :
  snd surrogate_done = Raise UnicodeEncodeError
  /\ written (fst surrogate_done) = []
  /\ unfinished (fst surrogate_done)
     = [py "routes/strava_route_4_route.geojson"].
Proof.
  destruct (iteration_exceptions nfkd_latin1 (py "routes") no_detail
              always_stores surrogate_name empty_world []
              (fst surrogate_done) UnicodeEncodeError)
    as [W [H|[H|[H|H]]]].
  - vm_compute. reflexivity.
  - exfalso. destruct H as [_ [H|[H|[H _]]]]; discriminate.
  - exfalso. destruct H as [H _]. discriminate.
  - exfalso. destruct H as [H _]. discriminate.
  - destruct H as (_ & _ & U).
    split; [vm_compute; reflexivity|]. split; [exact W|exact U].
Defined.

Lemma route_without_polyline_is_skipped_witness :
  process_route nfkd_latin1 (py "routes") no_detail always_stores
    (listed 3 None None None) empty_world []
  = (print (skip_message (listed 3 None None None))
       (fst (resolve_polyline no_detail (listed 3 None None None)
               empty_world)),
     Ok [])
  /\ written (fst (resolve_polyline no_detail (listed 3 None None None)
                     empty_world))
     = written empty_world.
Proof.
  apply (route_without_polyline_is_skipped nfkd_latin1 (py "routes")
           no_detail always_stores (listed 3 None None None) empty_world []).
  reflexivity.
Defined.

Lemma failed_detail_falls_back_witness :
  process_route nfkd_latin1 (py "routes")
    (fun _ => FetchFailed (py "timed out")) always_stores sound empty_world []
  = process_route nfkd_latin1 (py "routes") (fun _ => Fetched None)
      always_stores sound
      (print (warning_message sound (py "timed out")) empty_world) [].
Proof.
  apply (failed_detail_falls_back nfkd_latin1 (py "routes")
           (fun _ => FetchFailed (py "timed out")) always_stores sound
           empty_world [] (py "timed out")).
  reflexivity.
Defined.

Lemma null_distance_stops_the_run_witness :
  process_route nfkd_latin1 (py "routes") no_detail always_stores
    null_distance empty_world []
  = (fst (resolve_polyline no_detail null_distance empty_world),
     Raise TypeError)
  /\ written (fst (resolve_polyline no_detail null_distance empty_world))
     = written empty_world
  /\ km (get_default_zero (r_distance null_distance)) = Ok 0%float.
Proof.
  apply (null_distance_stops_the_run nfkd_latin1 (py "routes") no_detail
           always_stores null_distance empty_world [] (py "_p~iF~ps|U")
           (38.5, -120.2)%float []).
  - reflexivity.
  - reflexivity.
  - vm_compute. reflexivity.
Defined.

Lemma entry_agrees_with_file_witness :
  exists mp coords path gj f e,
    snd (resolve_polyline no_detail unnamed empty_world) = Some mp
    /\ decode_polyline mp = Ok coords
    /\ written (fst unnamed_done)
       = written empty_world ++ [(path, GeoJSON gj)]
    /\ entries_of (snd unnamed_done) = [] ++ [e]
    /\ gj_features gj = [f]
    /\ f_coordinates f = map (fun p => [snd p; fst p]) coords
    /\ bbox_from_coords coords = Ok (gj_bbox gj)
    /\ e_bbox e = gj_bbox gj
    /\ center_from_bbox (gj_bbox gj) = Ok (e_center e)
    /\ e_id e = p_id (f_properties f)
    /\ e_name e = p_name (f_properties f)
    /\ e_slug e = p_slug (f_properties f)
    /\ e_type e = p_type (f_properties f)
    /\ e_distance_m e = p_distance_m (f_properties f)
    /\ e_distance_km e = p_distance_km (f_properties f)
    /\ e_elev_gain_m e = p_elev_gain_m (f_properties f)
    /\ e_updated_at e = p_updated_at (f_properties f).
Proof.
  apply (entry_agrees_with_file nfkd_latin1 (py "routes") no_detail
           always_stores unnamed empty_world [] (fst unnamed_done)
           (entries_of (snd unnamed_done))).
  - vm_compute. reflexivity.
  - vm_compute. discriminate.
Defined.

(** ** The run: files, manifest, entries *)

Section RunSpec.
Variable NFKD : pystr -> pystr.
Variables ROUTES_DIR INDEX_PATH : pystr.
Variable get_route_detail : Z -> FetchResult.
Variable now : pystr.
Variable disk : Disk.

Lemma process_route_effect r w acc w' res :
  process_route NFKD ROUTES_DIR get_route_detail disk r w acc = (w', res) ->
  match res with
  | Raise e =>
      written w' = written w
      /\ ((unfinished w' = unfinished w
           /\ (e = IndexError \/ e = OverflowError \/ e = TypeError
               \/ e = OSError))
          \/ ((e = OSError \/ e = UnicodeEncodeError)
              /\ unfinished w'
                 = unfinished w ++ [route_path NFKD ROUTES_DIR r]))
  | Ok acc' =>
      unfinished w' = unfinished w
      /\ ((acc' = acc /\ written w' = written w)
          \/ exists e gj,
               acc' = acc ++ [e]
               /\ written w'
                  = written w ++ [(entry_path ROUTES_DIR e, GeoJSON gj)]
               /\ entry_of_route NFKD r e)
  end.
Proof.
  destruct res as [acc'|e]; intros H.
  - split; [exact (process_route_ok_unfinished _ _ _ _ _ _ _ _ _ H)|].
    apply process_route_ok in H. destruct H as [H|H]; [left; exact H|right].
    destruct H as (mp & coords & bbox & center & dm & dkm & eg & H).
    destruct H as (_ & _ & _ & _ & _ & _ & _ & _ & P).
    unfold packaged in P. destruct P as [-> ->].
    do 2 eexists. split; [reflexivity|]. split; [reflexivity|].
    repeat split.
  - apply process_route_raises in H. destruct H as [H1 H2].
    split; [exact H1|].
    destruct H2 as [[U H2]|[(-> & _ & U)|[(-> & _ & U)|(-> & _ & U)]]];
      [left; split; [exact U|tauto]|left; auto|right; auto|right; auto].
Qed.

Lemma for_routes_effect rs :
  forall w acc w' res,
    for_routes NFKD ROUTES_DIR get_route_detail disk rs w acc = (w', res) ->
    exists files,
      written w' = written w ++ files
      /\ Forall is_geojson files
      /\ match res with
         | Raise e =>
             (length files < length rs)%nat
             /\ ((unfinished w' = unfinished w
                  /\ (e = IndexError \/ e = OverflowError \/ e = TypeError
                      \/ e = OSError))
                 \/ ((e = OSError \/ e = UnicodeEncodeError)
                     /\ exists r,
                          In r rs
                          /\ unfinished w'
                             = unfinished w ++ [route_path NFKD ROUTES_DIR r]))
         | Ok acc' =>
             exists new,
               acc' = acc ++ new
               /\ map fst files = map (entry_path ROUTES_DIR) new
               /\ Forall (fun e => exists r, In r rs /\ entry_of_route NFKD r e)
                    new
               /\ (length new <= length rs)%nat
               /\ unfinished w' = unfinished w
         end.
Proof.
  induction rs as [|r rs IH]; intros w acc w' res; cbn [for_routes].
  - intros [= <- <-]. exists []. rewrite app_nil_r.
    split; [reflexivity|]. split; [constructor|].
    exists []. rewrite app_nil_r. repeat split; auto.
  - destruct (process_route NFKD ROUTES_DIR get_route_detail disk r w acc)
      as [w1 [acc1|e1]] eqn:P; apply process_route_effect in P.
    + intros H. apply IH in H.
      destruct H as (files & W & G & H).
      destruct P as [U1 P].
      assert (Step : exists files1 new1,
                 written w1 = written w ++ files1
                 /\ Forall is_geojson files1
                 /\ acc1 = acc ++ new1
                 /\ map fst files1 = map (entry_path ROUTES_DIR) new1
                 /\ Forall (fun e => entry_of_route NFKD r e) new1
                 /\ (length new1 <= 1)%nat
                 /\ length files1 = length new1).
      { destruct P as [[-> Hw]|(e & gj & -> & Hw & E)].
        - exists [], []. rewrite !app_nil_r. repeat split; auto.
        - exists [(entry_path ROUTES_DIR e, GeoJSON gj)], [e].
          repeat split; auto.
          constructor; [|constructor]. now exists gj. }
      destruct Step as (files1 & new1 & W1 & G1 & A1 & M1 & E1 & L1 & L1').
      exists (files1 ++ files).
      split; [rewrite W, W1; symmetry; apply app_assoc|].
      split; [apply Forall_app; auto|].
      destruct res as [acc'|e].
      * destruct H as (new & -> & M & E & L & U).
        exists (new1 ++ new). rewrite A1.
        split; [symmetry; apply app_assoc|].
        split; [rewrite !map_app; congruence|].
        split; [|split; [rewrite length_app; simpl; lia|congruence]].
        apply Forall_app. split.
        -- eapply Forall_impl; [|exact E1].
           intros e He. exists r. split; [now left|exact He].
        -- eapply Forall_impl; [|exact E].
           intros e (r' & In' & He). exists r'. split; [now right|exact He].
      * destruct H as [L E]. split; [rewrite length_app; simpl; lia|].
        rewrite <- U1.
        destruct E as [E|(E & r' & In' & U)]; [left; exact E|right].
        split; [exact E|]. exists r'. split; [now right|exact U].
    + intros [= <- <-]. destruct P as [Hw E]. exists [].
      rewrite app_nil_r. split; [exact Hw|]. split; [constructor|].
      split; [simpl; lia|].
      destruct E as [E|[E U]]; [left; exact E|right].
      split; [exact E|]. exists r. split; [now left|exact U].
Qed.




(** X20.  Every route of the manifest is the entry of a listed route: it
    has that route's identifier, type and timestamp, its name or
    "Route <id>", the slug of that name, and a [file] made of [routes/],
    the identifier and the slug; and the manifest has no more routes than
    the listing. *)
Theorem manifest_entries_come_from_listing athlete rs w w' :
  main NFKD ROUTES_DIR INDEX_PATH get_route_detail now disk athlete rs w
  = (w', Ok tt) ->
  exists before index,
    written w' = before ++ [(INDEX_PATH, Manifest index)]
    /\ (forall e, In e (routes index) ->
          exists r, In r rs /\ entry_of_route NFKD r e)
    /\ (length (routes index) <= length rs)%nat.
Proof.
  intros H.
  destruct (main_ok _ _ _ _ _ _ _ _ _ _ H)
    as (w1 & entries & index & L & W & R & _).
  apply for_routes_effect in L.
  destruct L as (files & _ & _ & new & -> & _ & E & Len & _).
  simpl in *. exists (written w1), index.
  assert (P : Permutation new (routes index))
    by (rewrite R; apply sort_by_key_perm).
  split; [exact W|]. split.
  - intros e He. rewrite Forall_forall in E. apply E.
    apply (Permutation_in _ (Permutation_sym P) He).
  - now rewrite <- (Permutation_length P).
Qed.

(** X21.  The sort of the manifest is stable: entries that have the same
    type and the same name stay in the order in which the loop appended
    them. *)
Theorem manifest_sort_is_stable athlete rs w w' :
  main NFKD ROUTES_DIR INDEX_PATH get_route_detail now disk athlete rs w
  = (w', Ok tt) ->
  exists w1 entries index,
    for_routes NFKD ROUTES_DIR get_route_detail disk rs
      (print (found_message athlete rs) w) [] = (w1, Ok entries)
    /\ written w' = written w1 ++ [(INDEX_PATH, Manifest index)]
    /\ forall k,
         filter (fun e => pair_eqb (sort_key e) k) (routes index)
         = filter (fun e => pair_eqb (sort_key e) k) entries.
Proof.
  intros H.
  destruct (main_ok _ _ _ _ _ _ _ _ _ _ H)
    as (w1 & entries & index & L & W & R & _).
  exists w1, entries, index.
  split; [exact L|]. split; [exact W|].
  intros k. rewrite R. apply sort_entries_stable.
Qed.

End RunSpec.



Lemma manifest_entries_come_from_listing_witness :
  exists before index,
    written (fst three_done)
    = before ++ [(py "routes/index.json", Manifest index)]
    /\ (forall e, In e (routes index) ->
          exists r, In r three_routes /\ entry_of_route nfkd_latin1 r e)
    /\ (length (routes index) <= length three_routes)%nat.
Proof.
  apply (manifest_entries_come_from_listing nfkd_latin1 (py "routes")
           (py "routes/index.json") no_detail timestamp always_stores 7
           three_routes empty_world (fst three_done)).
  vm_compute. reflexivity.
Defined.

(** Routes 2 and 3 are both ride/A and are listed after route 1, run/B:
    the manifest has them first, 2 before 3 as in the listing. *)
Lemma manifest_sort_is_stable_witness :
  (exists index,
     last_manifest (fst tied_done) = Some (py "routes/index.json", index)
     /\ map (fun e => (e_id e, e_type e, e_name e)) (routes index)
        = [ (2, Some (py "ride"), py "A"); (3, Some (py "ride"), py "A");
            (1, Some (py "run"), py "B") ])
  /\ exists w1 entries index,
       for_routes nfkd_latin1 (py "routes") no_detail always_stores
         tied_routes (print (found_message 7 tied_routes) empty_world) []
       = (w1, Ok entries)
       /\ written (fst tied_done)
          = written w1 ++ [(py "routes/index.json", Manifest index)]
       /\ forall k,
            filter (fun e => pair_eqb (sort_key e) k) (routes index)
            = filter (fun e => pair_eqb (sort_key e) k) entries.
Proof.
  split.
  - eexists. split; vm_compute; reflexivity.
  - apply (manifest_sort_is_stable nfkd_latin1 (py "routes")
             (py "routes/index.json") no_detail timestamp always_stores 7
             tied_routes empty_world (fst tied_done)).
    vm_compute. reflexivity.
Defined.

(** ** Listing: pages asked for, routes returned *)

Section ListingSpec.
Context {A : Type}.
Variable requests_get : Z -> Z -> option (Response (list A)).
Variable per_page : Z.

Lemma list_pages_asked n :
  forall page routes asked,
    exists k,
      (k <= n)%nat
      /\ fst (list_pages requests_get per_page n page routes asked)
         = asked ++ map (fun i => page + Z.of_nat i) (seq 0 k)
      /\ match snd (list_pages requests_get per_page n page routes asked) with
         | inr result =>
             result
             = routes
               ++ List.concat (map (fun i => page_data requests_get per_page
                                          (page + Z.of_nat i)) (seq 0 k))
         | inl e =>
             exists j, k = S j
               /\ api_get (requests_get (page + Z.of_nat j) per_page) = inl e
         end.
Proof.
  induction n as [|n IH]; intros page routes asked.
  - exists 0%nat. simpl. rewrite !app_nil_r. auto.
  - cbn [list_pages]. unfold page_data.
    destruct (api_get (requests_get page per_page)) as [e|data] eqn:G.
    + exists 1%nat. simpl. rewrite Z.add_0_r.
      split; [lia|]. split; [reflexivity|]. exists 0%nat.
      rewrite Z.add_0_r. auto.
    + destruct data as [|d data].
      * exists 1%nat. simpl. rewrite Z.add_0_r, G. simpl.
        rewrite app_nil_r. split; [lia|]. auto.
      * destruct (Z.of_nat (length (d :: data)) <? per_page).
        -- exists 1%nat. simpl. rewrite Z.add_0_r, G. simpl.
           rewrite app_nil_r. split; [lia|]. auto.
        -- destruct (IH (page + 1) (routes ++ d :: data) (asked ++ [page]))
             as (k & Hk & Ha & Hr).
           exists (S k). split; [lia|].
           assert (Shift : forall (B : Type) (f : Z -> B),
                     map (fun i => f (page + Z.of_nat i)) (seq 0 (S k))
                     = f page
                       :: map (fun i => f (page + 1 + Z.of_nat i)) (seq 0 k)).
           { intros B f. cbn [seq map]. rewrite Z.add_0_r. f_equal.
             rewrite <- seq_shift, map_map. apply map_ext. intros i.
             f_equal. lia. }
           split.
           ++ rewrite Ha, (Shift Z (fun z => z)), <- app_assoc. reflexivity.
           ++ destruct (snd (list_pages requests_get per_page n (page + 1)
                               (routes ++ d :: data) (asked ++ [page]))).
              ** destruct Hr as (j & -> & Hj). exists (S j).
                 split; [reflexivity|].
                 replace (page + Z.of_nat (S j)) with (page + 1 + Z.of_nat j)
                   by lia. exact Hj.
              ** rewrite Hr, (Shift _ (fun z =>
                   match api_get (requests_get z per_page) with
                   | inl _ => []
                   | inr data0 => data0
                   end)), G.
                 cbn [List.concat]. rewrite <- app_assoc. reflexivity.
Qed.

(** X22.  [list_athlete_routes] asks for the pages 1, 2, ... in order and
    for no more than [max_pages] of them; what it returns is what these
    pages brought, put end to end; and when it raises, that is the error
    of the last page asked for, the routes of the pages before being
    lost. *)
Theorem listing_asks_pages_in_order max_pages :
  exists k,
    (k <= Z.to_nat max_pages)%nat
    /\ fst (list_athlete_routes requests_get per_page max_pages)
       = map (fun i => 1 + Z.of_nat i) (seq 0 k)
    /\ match snd (list_athlete_routes requests_get per_page max_pages) with
       | inr result =>
           result
           = List.concat (map (fun i => page_data requests_get per_page
                                     (1 + Z.of_nat i)) (seq 0 k))
       | inl e =>
           exists j, k = S j
             /\ api_get (requests_get (1 + Z.of_nat j) per_page) = inl e
       end.
Proof.
  unfold list_athlete_routes.
  destruct (list_pages_asked (Z.to_nat max_pages) 1 [] [])
    as (k & Hk & Ha & Hr).
  exists k. auto.
Qed.

End ListingSpec.

Lemma firstn_add {A : Type} (a b : nat) (l : list A) :
  firstn (a + b) l = firstn a l ++ firstn b (skipn a l).
Proof.
  revert l. induction a as [|a IH]; intros [|x l]; simpl;
    rewrite ?firstn_nil; try reflexivity.
  now rewrite IH.
Qed.

Lemma list_pages_serve {A : Type} (all : list A) (pp : nat) n :
  (0 < pp)%nat ->
  forall k asked,
    snd (list_pages (serve all) (Z.of_nat pp) n (Z.of_nat (S k))
           (firstn (k * pp) all) asked)
    = inr (firstn ((k + n) * pp) all).
Proof.
  intros Hpp. induction n as [|n IH]; intros k asked.
  - simpl. now rewrite Nat.add_0_r.
  - cbn [list_pages]. unfold api_get, serve. cbn [status_code json].
    change (200 =? 429) with false. cbn [andb]. change (200 <? 600) with true.
    change (400 <=? 200) with false. cbn [andb].
    replace (Z.to_nat ((Z.of_nat (S k) - 1) * Z.of_nat pp)) with (k * pp)%nat
      by lia.
    rewrite Nat2Z.id.
    destruct (firstn pp (skipn (k * pp) all)) as [|d data] eqn:E.
    + cbn [snd]. f_equal.
      assert (L : (length all <= k * pp)%nat).
      { pose proof (length_firstn pp (skipn (k * pp) all)) as F.
        rewrite E, length_skipn in F. simpl in F. lia. }
      rewrite !firstn_all2 by nia. reflexivity.
    + rewrite <- E.
      assert (R : firstn (k * pp) all ++ firstn pp (skipn (k * pp) all)
                  = firstn (S k * pp) all).
      { replace (S k * pp)%nat with (k * pp + pp)%nat by lia.
        symmetry. apply firstn_add. }
      rewrite R.
      destruct (Z.ltb_spec (Z.of_nat (length (firstn pp (skipn (k * pp) all))))
                  (Z.of_nat pp)) as [Short|Full].
      * cbn [snd]. f_equal.
        assert (L : (length all < S k * pp)%nat).
        { rewrite length_firstn, length_skipn in Short. lia. }
        rewrite !firstn_all2 by nia. reflexivity.
      * replace (Z.of_nat (S k) + 1) with (Z.of_nat (S (S k))) by lia.
        rewrite IH. f_equal. f_equal. lia.
Qed.

(** X23.  From a service that holds a list of routes and answers every
    request with the page asked for, [list_athlete_routes] returns the
    first [per_page * max_pages] routes: the whole list when it is no
    longer than that, and otherwise its beginning, the rest left out
    without an error. *)
Theorem listing_truncates (A : Type) (all : list A) (per_page max_pages : Z) :
  0 < per_page -> 0 <= max_pages ->
  snd (list_athlete_routes (serve all) per_page max_pages)
  = inr (firstn (Z.to_nat (per_page * max_pages)) all).
Proof.
  intros Hp Hm. unfold list_athlete_routes.
  pose proof (list_pages_serve all (Z.to_nat per_page) (Z.to_nat max_pages))
    as H.
  rewrite Z2Nat.id in H by lia.
  specialize (H ltac:(lia) 0%nat []). simpl in H. rewrite H.
  f_equal. f_equal. lia.
Qed.

Lemma listing_truncates_witness :
  snd (list_athlete_routes (serve [1; 2; 3; 4; 5; 6; 7]) 2 3)
  = inr (firstn (Z.to_nat (2 * 3)) [1; 2; 3; 4; 5; 6; 7]).
Proof.
  apply (listing_truncates Z [1; 2; 3; 4; 5; 6; 7] 2 3); lia.
Defined.

(** ** Decoded paths and their bounding box *)

(** X24.  Decoding and the geometry compose: a decoded path that is not
    empty has a bounding box, which bounds every point and is attained on
    each side, and that box has a center; neither step raises. *)
Theorem decoded_path_has_bounding_box polyline_str coords :
  decode_polyline polyline_str = Ok coords -> coords <> [] ->
  exists b cx cy,
    bbox_from_coords coords = Ok b
    /\ bounding_box coords b
    /\ center_from_bbox b = Ok [cx; cy].
Proof.
  intros D N.
  destruct (bbox_of_decoded _ _ D N) as (b & E & B).
  pose proof B as (minLon & minLat & maxLon & maxLat & -> & _).
  do 3 eexists. split; [exact E|]. split; [exact B|]. reflexivity.
Qed.

Lemma decoded_path_has_bounding_box_witness :
  exists b cx cy,
    bbox_from_coords
      [(38.5, -120.2); (40.7, -120.95); (43.252, -126.453)]%float = Ok b
    /\ bounding_box
         [(38.5, -120.2); (40.7, -120.95); (43.252, -126.453)]%float b
    /\ center_from_bbox b = Ok [cx; cy].
Proof.
  apply (decoded_path_has_bounding_box canonical).
  - vm_compute. reflexivity.
  - discriminate.
Defined.

(** ** The manifest and the order of the listing *)

Lemma key_le_antisym p q : key_le p q -> key_le q p -> p = q.
Proof.
  intros [->|H1] [E|H2]; auto. exfalso. exact (key_lt_asym _ _ H1 H2).
Qed.

(** Two sorted lists of entries with the same members, no two of them
    with the same key, are the same list. *)
Lemma sorted_entries_unique l1 :
  forall l2,
    entries_sorted l1 -> entries_sorted l2 -> Permutation l1 l2 ->
    NoDup (map sort_key l1) -> l1 = l2.
Proof.
  unfold entries_sorted.
  induction l1 as [|a l1 IH]; intros l2 S1 S2 P N.
  - now apply Permutation_nil in P.
  - destruct l2 as [|b l2].
    { apply Permutation_sym, Permutation_nil in P. discriminate. }
    inversion S1 as [|? ? S1' F1]; subst.
    inversion S2 as [|? ? S2' F2]; subst.
    inversion N as [|? ? Na N']; subst.
    rewrite Forall_forall in F1, F2.
    assert (a = b).
    { assert (Ia : In a (b :: l2))
        by (apply (Permutation_in _ P); now left).
      assert (Ib : In b (a :: l1))
        by (apply (Permutation_in _ (Permutation_sym P)); now left).
      destruct Ia as [->|Ia]; [reflexivity|].
      destruct Ib as [->|Ib]; [reflexivity|].
      exfalso. apply Na.
      rewrite (key_le_antisym _ _ (F1 _ Ib) (F2 _ Ia)).
      now apply in_map. }
    subst b. f_equal.
    apply IH; auto. now apply Permutation_cons_inv in P.
Qed.

Section OrderSpec.
Variable NFKD : pystr -> pystr.
Variables ROUTES_DIR INDEX_PATH : pystr.
Variable get_route_detail : Z -> FetchResult.
Variable now : pystr.
Variable disk : Disk.

Lemma resolve_polyline_world r w w0 :
  snd (resolve_polyline get_route_detail r w)
  = snd (resolve_polyline get_route_detail r w0).
Proof.
  unfold resolve_polyline. destruct (get_route_detail (r_id r)).
  - reflexivity.
  - destruct (map_polyline detail_map) as [[|c s]|]; reflexivity.
Qed.

(** What an iteration appends does not depend on the world or on the
    entries before. *)
Lemma process_route_entries r w acc w' acc' :
  process_route NFKD ROUTES_DIR get_route_detail disk r w acc = (w', Ok acc') ->
  acc' = acc ++ route_entries NFKD ROUTES_DIR get_route_detail r.
Proof.
  unfold route_entries, process_route.
  pose proof (resolve_polyline_world r w empty_world) as E.
  destruct (resolve_polyline get_route_detail r w) as [w1 mp].
  destruct (resolve_polyline get_route_detail r empty_world) as [w2 mp2].
  simpl in E. subst mp2.
  destruct mp as [[|c s]|];
    try (intros [= _ <-]; simpl; now rewrite app_nil_r).
  destruct (decode_polyline (c :: s)) as [[|p coords]|e].
  - intros [= _ <-]. simpl. now rewrite app_nil_r.
  - destruct (bind _ _) as [[[[[bbox center] dm] dkm] eg]|e];
      [|discriminate].
    destruct (write_file disk _ _ w1) as [w3 [u|e]] eqn:Wr; [|discriminate].
    apply write_file_ok in Wr. destruct Wr as (_ & Enc & _ & _).
    intros [= _ <-]. unfold write_file, always_stores. rewrite Enc.
    reflexivity.
  - discriminate.
Qed.

Lemma for_routes_entries rs :
  forall w acc w' acc',
    for_routes NFKD ROUTES_DIR get_route_detail disk rs w acc = (w', Ok acc') ->
    acc' = acc
           ++ flat_map (route_entries NFKD ROUTES_DIR get_route_detail) rs.
Proof.
  induction rs as [|r rs IH]; intros w acc w' acc'; cbn [for_routes flat_map].
  - intros [= _ <-]. now rewrite app_nil_r.
  - destruct (process_route NFKD ROUTES_DIR get_route_detail disk r w acc)
      as [w1 [acc1|e1]] eqn:P; [|discriminate].
    intros H. apply IH in H. apply process_route_entries in P.
    subst. now rewrite <- app_assoc.
Qed.

(** X25.  The manifest does not depend on the order of the listing: two
    runs that complete on listings with the same routes give manifests
    with the same routes and the same [count], and, when no two entries
    have the same type and name, in the same order. *)
Theorem manifest_independent_of_listing_order athlete rs rs' w1 w1' w2 w2' :
  Permutation rs rs' ->
  main NFKD ROUTES_DIR INDEX_PATH get_route_detail now disk athlete rs w1
  = (w1', Ok tt) ->
  main NFKD ROUTES_DIR INDEX_PATH get_route_detail now disk athlete rs' w2
  = (w2', Ok tt) ->
  exists before1 index1 before2 index2,
    written w1' = before1 ++ [(INDEX_PATH, Manifest index1)]
    /\ written w2' = before2 ++ [(INDEX_PATH, Manifest index2)]
    /\ Permutation (routes index1) (routes index2)
    /\ count index1 = count index2
    /\ (NoDup (map sort_key (routes index1)) ->
        routes index1 = routes index2).
Proof.
  intros P H1 H2.
  destruct (main_ok _ _ _ _ _ _ _ _ _ _ H1)
    as (v1 & entries1 & index1 & L1 & W1 & R1 & C1 & _).
  destruct (main_ok _ _ _ _ _ _ _ _ _ _ H2)
    as (v2 & entries2 & index2 & L2 & W2 & R2 & C2 & _).
  apply for_routes_entries in L1, L2. simpl in L1, L2. subst entries1 entries2.
  exists (written v1), index1, (written v2), index2.
  split; [exact W1|]. split; [exact W2|].
  assert (PE : Permutation (routes index1) (routes index2)).
  { rewrite R1, R2, <- !sort_by_key_perm. now apply Permutation_flat_map. }
  split; [exact PE|]. split.
  - rewrite C1, C2. f_equal. apply Permutation_length.
    now apply Permutation_flat_map.
  - intros N. apply sorted_entries_unique; auto.
    + rewrite R1. apply sort_entries_sorted.
    + rewrite R2. apply sort_entries_sorted.
Qed.

End OrderSpec.

Lemma manifest_independent_of_listing_order_witness :
  exists before1 index1 before2 index2,
    written (fst three_done)
    = before1 ++ [(py "routes/index.json", Manifest index1)]
    /\ written (fst three_shuffled_done)
       = before2 ++ [(py "routes/index.json", Manifest index2)]
    /\ Permutation (routes index1) (routes index2)
    /\ count index1 = count index2
    /\ (NoDup (map sort_key (routes index1)) ->
        routes index1 = routes index2).
Proof.
  apply (manifest_independent_of_listing_order nfkd_latin1 (py "routes")
           (py "routes/index.json") no_detail timestamp always_stores 7
           three_routes
           three_routes_shuffled empty_world (fst three_done) empty_world
           (fst three_shuffled_done)).
  - unfold three_routes, three_routes_shuffled.
    match goal with
    | |- Permutation [?a; ?b; ?c] _ =>
        exact (Permutation_sym (Permutation_cons_append [a; b] c))
    end.
  - vm_compute. reflexivity.
  - vm_compute. reflexivity.
Defined.
